(** * The boundary-penalty transform of the COCO benchmark framework

    A shallow embedding of [src/penalize_uninteresting_values.c] and the
    properties its specification states about it.

    - A C [double] is an IEEE 754 binary64 number: the Standard Library's
      [spec_float] at precision 53 and maximal exponent 1024, with its
      round-to-nearest-even operations [SFadd], [SFsub], [SFmul] and the
      comparison [SFltb].  (The embedding assumes that every expression is
      evaluated in binary64, with neither extended precision nor fused
      multiply-add, and that assertions are compiled in.)
    - The vectors [x] and [y] are pointers into a heap of doubles, so that
      the in-place update of [y] and a possible overlap of the two buffers
      are visible.
    - A call either returns, stops at a failed [assert], or goes wrong
      (an access outside what is allocated). *)

From Stdlib Require Import ZArith Lia Bool List.
From Stdlib Require Import Floats.SpecFloat.
From stdpp Require Import base option list gmap.

Local Open Scope Z_scope.

(** ** Doubles *)

Module Double.

Definition prec : Z := 53.
Definition emax : Z := 1024.

Definition double : Type := spec_float.

(** A [spec_float] is a double when its mantissa and exponent are the
    canonical ones of binary64. *)
Definition is_double (a : double) : Prop := valid_binary prec emax a = true.

Definition add : double -> double -> double := SFadd prec emax.
Definition sub : double -> double -> double := SFsub prec emax.
Definition mul : double -> double -> double := SFmul prec emax.

(** The C comparisons [a < b], [a > b], [a <= b] and [a == b]. *)
Definition lt (a b : double) : bool := SFltb a b.
Definition gt (a b : double) : bool := SFltb b a.
Definition le (a b : double) : bool := SFleb a b.
Definition eqb (a b : double) : bool := SFeqb a b.

(** The literal [0.0], and the double nearest to an integer. *)
Definition zero : double := S754_zero false.
Definition of_Z (z : Z) : double := binary_normalize prec emax z 0 false.

Definition one : double := of_Z 1.
Definition infinity : double := S754_infinity false.

Definition is_finite (a : double) : bool :=
  match a with
  | S754_zero _ | S754_finite _ _ _ => true
  | S754_infinity _ | S754_nan => false
  end.

(** Signs. *)
Definition is_pos (a : double) : bool :=
  match a with
  | S754_infinity false | S754_finite false _ _ => true
  | _ => false
  end.

Definition is_nonneg (a : double) : bool :=
  match a with
  | S754_zero false | S754_infinity false | S754_finite false _ _ => true
  | _ => false
  end.

(** The value of a finite double, counted in units of [2 ^ -1074] (the
    smallest positive double), so that it is an integer. *)
Definition ival (a : double) : Z :=
  match a with
  | S754_finite s m e => cond_Zopp s (Zpos m * 2 ^ (e + 1074))
  | _ => 0
  end.

(** Rounding to nearest, ties to even, of [N / 2 ^ k] to an integer. *)
Definition rne (N k : Z) : Z :=
  let q := N / 2 ^ k in
  match 2 * (N mod 2 ^ k) ?= 2 ^ k with
  | Lt => q
  | Gt => q + 1
  | Eq => if Z.even q then q else q + 1
  end.

(** The double of sign [s] and value [q * 2 ^ t], for a mantissa [q] of at
    most 53 bits or equal to [2 ^ 53]; an infinity past the largest
    exponent. *)
Definition pack (s : bool) (q t : Z) : double :=
  match q with
  | Z0 => S754_zero s
  | Zpos m =>
      if q <? 2 ^ prec then
        if t <=? emax - prec then S754_finite s m t else S754_infinity s
      else
        if t + 1 <=? emax - prec then S754_finite s (Pos.div2 m) (t + 1)
        else S754_infinity s
  | Zneg _ => S754_nan
  end.

(** The double nearest to [N * 2 ^ E], for [N > 0]. *)
Definition round_at (E : Z) (s : bool) (N : Z) : double :=
  let t := fexp prec emax (Zdigits2 N + E) in
  pack s (rne N (t - E)) t.

(** What [k] steps of [shr_1] keep of [N]: the quotient, the bit below
    it, and whether anything lies further below. *)
Definition shr_inv (N k : Z) (mrs : shr_record) : Prop :=
  0 <= shr_m mrs /\
  exists rest, 0 <= rest < 2 ^ k /\
    2 * N = shr_m mrs * 2 ^ (k + 1) + (if shr_r mrs then 2 ^ k else 0) + rest /\
    (shr_s mrs = true <-> 0 < rest).

End Double.

Abbreviation double := Double.double.

Declare Scope double_scope.
Delimit Scope double_scope with D.
Infix "+" := Double.add : double_scope.
Infix "-" := Double.sub : double_scope.
Infix "*" := Double.mul : double_scope.

(** ** Outcomes of a call *)

Inductive outcome (A : Type) : Type :=
| Done (a : A)          (* the call returns *)
| AssertFail            (* an [assert] failed: the program is aborted *)
| Fault.                (* an access outside the allocated memory *)

Arguments Done {A} a.
Arguments AssertFail {A}.
Arguments Fault {A}.

#[global] Instance outcome_ret : MRet outcome := fun A a => Done a.

#[global] Instance outcome_bind : MBind outcome := fun A B k c =>
  match c with
  | Done a => k a
  | AssertFail => AssertFail
  | Fault => Fault
  end.

(** [assert(b)] *)
Definition assert (b : bool) : outcome unit :=
  if b then Done tt else AssertFail.

(** A pointer that must not be dangling. *)
Definition defined {A : Type} (o : option A) : outcome A :=
  match o with
  | Some a => Done a
  | None => Fault
  end.

(** [for (i = 0; i < n; ++i) body], threading the state [s]. *)
Fixpoint for_loop_from {St : Type} (i count : nat)
    (body : nat -> St -> outcome St) (s : St) : outcome St :=
  match count with
  | O => Done s
  | S count' => s' ← body i s; for_loop_from (S i) count' body s'
  end.

Definition for_loop {St : Type} (n : nat) (body : nat -> St -> outcome St) (s : St)
  : outcome St :=
  for_loop_from 0 n body s.

(** ** The heap of doubles *)

Definition ptr : Type := nat.
Abbreviation heap := (gmap nat double).

Definition load (h : heap) (p : ptr) (i : nat) : outcome double :=
  defined (h !! (p + i)%nat).

Definition store (h : heap) (p : ptr) (i : nat) (v : double) : outcome heap :=
  _ ← load h p i; Done (<[(p + i)%nat := v]> h).

(** The [n] doubles at [p], when all of them are allocated. *)
Fixpoint read_vector (h : heap) (p : ptr) (n : nat) : option (list double) :=
  match n with
  | O => Some []
  | S n' => v ← h !! p; vs ← read_vector h (S p) n'; Some (v :: vs)
  end.

(** The cells of the vector of [n] doubles at [p]. *)
Definition within (p : ptr) (n : nat) (a : nat) : Prop := (p <= a < p + n)%nat.

(** Two calls agree outside the vector at [p]. *)
Definition same_outside (p : ptr) (n : nat) (h h' : heap) : Prop :=
  forall a, ~ within p n a -> h' !! a = h !! a.

(** ** Problems *)

(** [typedef struct { double factor; } _puv_data_t;] *)
Record _puv_data_t : Type := { factor : double }.

(** Modelled from the spec: [coco_problem_t] is declared in [coco.h] and
    [coco_problem.c], which are not among the sources; these are the fields
    that this file reads or writes.  [evaluate_function] is the function
    pointer together with the problem it will be called on; the two arrays of
    bounds are owned by the problem and kept by value; [data] is the
    [void *data] of a transformed problem: the wrapped problem (a pointer,
    possibly [NULL]) and the private data of the transformation. *)
Inductive coco_problem_t : Type := Build_coco_problem_t {
  evaluate_function : ptr -> ptr -> heap -> outcome heap;
  number_of_variables : nat;
  number_of_objectives : nat;
  smallest_values_of_interest : list double;
  largest_values_of_interest : list double;
  data : option coco_transform_data_t
}
with coco_transform_data_t : Type := Build_coco_transform_data_t {
  inner_problem : option coco_problem_t;
  transform_data : _puv_data_t
}.

(** Modelled from the spec: [coco_get_transform_data] is not among the
    sources.  It returns the private data of a transformed problem, here the
    [_puv_data_t] that holds the [factor]; on a problem that is not a
    transformed one it goes wrong. *)
Definition coco_get_transform_data (self : coco_problem_t) : outcome _puv_data_t :=
  td ← defined (data self); Done (transform_data td).

(** Modelled from the spec: [coco_get_transform_inner_problem] is not among
    the sources.  It returns the reference to the wrapped problem that a
    transformed problem keeps. *)
Definition coco_get_transform_inner_problem (self : coco_problem_t)
  : outcome (option coco_problem_t) :=
  td ← defined (data self); Done (inner_problem td).

(** Modelled from the spec: [coco_evaluate_function] is not among the
    sources.  [coco_evaluate_function(problem, x, y)] is the problem's
    [evaluate(x) -> y]: it calls the problem's evaluation routine, which
    writes the objective values into [y]. *)
Definition coco_evaluate_function (problem : coco_problem_t) (x y : ptr) (h : heap)
  : outcome heap :=
  evaluate_function problem x y h.

(** Modelled from the spec: [coco_allocate_transformed_problem] is not among
    the sources.  It allocates a problem-shaped object that takes dimension,
    objective count and the two bound vectors from the inner problem, keeps
    the reference to the inner problem and the transformation's data, and
    delegates evaluation to the inner problem until it is overridden.
    Allocation is taken to succeed. *)
Definition coco_allocate_transformed_problem (inner : coco_problem_t)
    (user_data : _puv_data_t) : coco_problem_t :=
  {| evaluate_function := coco_evaluate_function inner;
     number_of_variables := number_of_variables inner;
     number_of_objectives := number_of_objectives inner;
     smallest_values_of_interest := smallest_values_of_interest inner;
     largest_values_of_interest := largest_values_of_interest inner;
     data := Some {| inner_problem := Some inner; transform_data := user_data |} |}.

(** [self->evaluate_function = f] *)
Definition set_evaluate_function (self : coco_problem_t)
    (f : ptr -> ptr -> heap -> outcome heap) : coco_problem_t :=
  {| evaluate_function := f;
     number_of_variables := number_of_variables self;
     number_of_objectives := number_of_objectives self;
     smallest_values_of_interest := smallest_values_of_interest self;
     largest_values_of_interest := largest_values_of_interest self;
     data := data self |}.

(** ** The transformation *)

(** What one coordinate adds to the penalty: the [if / else if] of the first
    loop of [_puv_evaluate_function]. *)
Definition _puv_accumulate (penalty xi lb ub : double) : double :=
  let c1 := (xi - ub)%D in
  let c2 := (lb - xi)%D in
  if Double.gt c1 Double.zero then (penalty + c1 * c1)%D
  else if Double.gt c2 Double.zero then (penalty + c2 * c2)%D
  else penalty.

(** The body of the first loop: the reads of [x[i]] and of the two bounds,
    the assertion, the accumulation. *)
Definition _puv_penalty_body (h : heap) (x : ptr)
    (lower_bounds upper_bounds : list double) (i : nat) (penalty : double)
  : outcome double :=
  xi ← load h x i;
  ub ← defined (upper_bounds !! i);
  lb ← defined (lower_bounds !! i);
  _ ← assert (Double.lt lb ub);
  Done (_puv_accumulate penalty xi lb ub).

(** The first loop, from [penalty = 0.0]. *)
Definition _puv_penalty (h : heap) (x : ptr)
    (lower_bounds upper_bounds : list double) (n : nat) : outcome double :=
  for_loop n (_puv_penalty_body h x lower_bounds upper_bounds) Double.zero.

(** The body of the second loop: [y[i] += data->factor * penalty]. *)
Definition _puv_add_body (y : ptr) (k penalty : double) (i : nat) (h : heap)
  : outcome heap :=
  yi ← load h y i;
  store h y i (yi + k * penalty)%D.

Definition _puv_evaluate_function (self : coco_problem_t) (x y : ptr) (h : heap)
  : outcome heap :=
  puv_data ← coco_get_transform_data self;
  let lower_bounds := smallest_values_of_interest self in
  let upper_bounds := largest_values_of_interest self in
  penalty ← _puv_penalty h x lower_bounds upper_bounds (number_of_variables self);
  inner ← coco_get_transform_inner_problem self;
  match inner with
  | None => AssertFail
  | Some inner =>
      h1 ← coco_evaluate_function inner x y h;
      for_loop (number_of_objectives self)
               (_puv_add_body y (factor puv_data) penalty) h1
  end.

(** [penalize_uninteresting_values(inner_problem, factor)].  The private data
    block is allocated and filled, the transformed problem allocated, and its
    evaluation routine replaced.  [_puv_evaluate_function] never reads the
    [evaluate_function] field of the problem it is called on, so the routine
    can be attached to the problem as it is before the assignment. *)
Definition penalize_uninteresting_values (inner_problem : option coco_problem_t)
    (k : double) : outcome coco_problem_t :=
  match inner_problem with
  | None => AssertFail
  | Some inner =>
      let puv_data := {| factor := k |} in
      let self := coco_allocate_transformed_problem inner puv_data in
      Done (set_evaluate_function self (_puv_evaluate_function self))
  end.

(** ** Concrete problems *)

Module Scenario.

Definition lower : list double := [Double.of_Z (-1); Double.of_Z (-1)].
Definition upper : list double := [Double.of_Z 1; Double.of_Z 1].

(** An inner problem that yields [c] whatever [x] is. *)
Definition constant_problem (c : double) : coco_problem_t :=
  {| evaluate_function := fun _ y h => store h y 0 c;
     number_of_variables := 2;
     number_of_objectives := 1;
     smallest_values_of_interest := lower;
     largest_values_of_interest := upper;
     data := None |}.

(** [x] at address 0, [y] at address 2. *)
Definition x : ptr := 0%nat.
Definition y : ptr := 2%nat.

Definition heap_of (x0 x1 y0 : double) : heap :=
  <[0%nat := x0]> (<[1%nat := x1]> (<[2%nat := y0]> ∅)).

(** The problem that [penalize_uninteresting_values] returns for [inner]
    and the factor [k]. *)
Definition wrap (inner : coco_problem_t) (k : double) : coco_problem_t :=
  set_evaluate_function
    (coco_allocate_transformed_problem inner {| factor := k |})
    (_puv_evaluate_function
       (coco_allocate_transformed_problem inner {| factor := k |})).

Definition transformed (k c : double) : coco_problem_t :=
  wrap (constant_problem c) k.

(** [y[0]] after the evaluation of the transformed problem at
    [x = [x0, x1]], and after the evaluation of the inner problem. *)
Definition run (k c x0 x1 : double) : outcome (option double) :=
  self ← penalize_uninteresting_values (Some (constant_problem c)) k;
  h ← coco_evaluate_function self x y (heap_of x0 x1 Double.zero);
  Done (h !! y).

Definition run_inner (c x0 x1 : double) : outcome (option double) :=
  h ← coco_evaluate_function (constant_problem c) x y (heap_of x0 x1 Double.zero);
  Done (h !! y).

(** A problem of one variable, bounded by [-1] and [1]. *)
Definition unary_problem (c : double) : coco_problem_t :=
  {| evaluate_function := fun _ y h => store h y 0 c;
     number_of_variables := 1;
     number_of_objectives := 1;
     smallest_values_of_interest := [Double.of_Z (-1)];
     largest_values_of_interest := [Double.of_Z 1];
     data := None |}.

Definition unary_transformed (k c : double) : coco_problem_t :=
  wrap (unary_problem c) k.

(** The only cell of [x] after a call in which [y] is [x] itself. *)
Definition run_aliased (k c x0 : double) : outcome (option (list double)) :=
  h ← coco_evaluate_function (unary_transformed k c) 0%nat 0%nat {[ 0%nat := x0 ]};
  Done (read_vector h 0%nat 1).



(** A problem without variables. *)
Definition nullary_problem (c : double) : coco_problem_t :=
  {| evaluate_function := fun _ y h => store h y 0 c;
     number_of_variables := 0;
     number_of_objectives := 1;
     smallest_values_of_interest := [];
     largest_values_of_interest := [];
     data := None |}.

Definition nullary_transformed (k c : double) : coco_problem_t :=
  wrap (nullary_problem c) k.

(** [y[0]] after the evaluation of the transformed problem without
    variables, and after the evaluation of its inner problem. *)
Definition run_nullary (k c : double) : outcome (option double) :=
  self ← penalize_uninteresting_values (Some (nullary_problem c)) k;
  h ← coco_evaluate_function self x y (heap_of Double.zero Double.zero Double.zero);
  Done (h !! y).

Definition run_nullary_inner (c : double) : outcome (option double) :=
  h ← coco_evaluate_function (nullary_problem c) x y
        (heap_of Double.zero Double.zero Double.zero);
  Done (h !! y).

End Scenario.


(** ** The penalty as the specification words it *)

(** The term of one coordinate: [c1 * c1] if [c1 = x[i] - upper[i] > 0],
    else [c2 * c2] if [c2 = lower[i] - x[i] > 0], else [0]. *)
Definition contribution (xi lb ub : double) : double :=
  let c1 := (xi - ub)%D in
  let c2 := (lb - xi)%D in
  if Double.gt c1 Double.zero then (c1 * c1)%D
  else if Double.gt c2 Double.zero then (c2 * c2)%D
  else Double.zero.

Fixpoint contributions (xs lbs ubs : list double) : list double :=
  match xs, lbs, ubs with
  | xi :: xs', lb :: lbs', ub :: ubs' =>
      contribution xi lb ub :: contributions xs' lbs' ubs'
  | _, _, _ => []
  end.

(** The sum over the coordinates, in the order of the indices. *)
Definition penalty_sum (xs lbs ubs : list double) : double :=
  fold_left Double.add (contributions xs lbs ubs) Double.zero.

(** ** Preconditions *)

Definition doubles (l : list double) : bool :=
  forallb (valid_binary Double.prec Double.emax) l.

(** [lower_bounds[i] < upper_bounds[i]] for every [i]. *)
Fixpoint bounds_ordered (lbs ubs : list double) : bool :=
  match lbs, ubs with
  | [], [] => true
  | lb :: lbs', ub :: ubs' => Double.lt lb ub && bounds_ordered lbs' ubs'
  | _, _ => false
  end.

(** The invariant of a problem: two bound vectors of doubles, of length
    [number_of_variables], the lower bound strictly below the upper one. *)
Definition well_formed (p : coco_problem_t) : bool :=
  (length (smallest_values_of_interest p) =? number_of_variables p)%nat
  && bounds_ordered (smallest_values_of_interest p) (largest_values_of_interest p)
  && doubles (smallest_values_of_interest p)
  && doubles (largest_values_of_interest p).

(** [lower_bounds[i] <= x[i] <= upper_bounds[i]] for every [i]. *)
Fixpoint in_bounds (xs lbs ubs : list double) : bool :=
  match xs, lbs, ubs with
  | [], [], [] => true
  | xi :: xs', lb :: lbs', ub :: ubs' =>
      Double.le lb xi && Double.le xi ub && in_bounds xs' lbs' ubs'
  | _, _, _ => false
  end.


(** The distance of [xi] beyond the bound that it violates. *)
Definition excess (xi lb ub : double) : double :=
  if Double.lt ub xi then (xi - ub)%D else (lb - xi)%D.

(** [xi] is outside the bounds, and [xi'] at least as far on the same
    side. *)
Definition further_outside (xi xi' lb ub : double) : bool :=
  (Double.lt ub xi && Double.le xi xi') || (Double.lt xi lb && Double.le xi' xi).

(** Equal as numbers: identical, or equal for the C comparison [==] (the
    two zeros). *)
Definition numerically_equal (v v' : double) : Prop :=
  v' = v \/ Double.eqb v v' = true.

(** Identical, but for a negative zero that has become the positive one. *)
Definition equal_up_to_zero_sign (v v' : double) : Prop :=
  v' = v \/ (v = S754_zero true /\ v' = S754_zero false).

(** ** Further notions about one coordinate *)

Definition is_nan (a : double) : bool :=
  match a with
  | S754_nan => true
  | _ => false
  end.

(** [xi] is a NaN, or lies inside the bounds. *)
Definition unpenalised (xi lb ub : double) : bool :=
  is_nan xi || (Double.le lb xi && Double.le xi ub).

Fixpoint all_unpenalised (xs lbs ubs : list double) : bool :=
  match xs, lbs, ubs with
  | [], [], [] => true
  | xi :: xs', lb :: lbs', ub :: ubs' =>
      unpenalised xi lb ub && all_unpenalised xs' lbs' ubs'
  | _, _, _ => false
  end.

(** [xi'] is no closer to the bounds than [xi]: either [xi] is not penalised
    at all, or [xi'] is at least as far outside on the same side. *)
Definition no_closer (xi xi' lb ub : double) : bool :=
  unpenalised xi lb ub || further_outside xi xi' lb ub.

Fixpoint all_no_closer (xs xs' lbs ubs : list double) : bool :=
  match xs, xs', lbs, ubs with
  | [], [], [], [] => true
  | xi :: xs1, xi' :: xs1', lb :: lbs', ub :: ubs' =>
      no_closer xi xi' lb ub && all_no_closer xs1 xs1' lbs' ubs'
  | _, _, _, _ => false
  end.

(** A double whose square overflows. *)
Definition huge : double := Double.of_Z (2 ^ 600).

(** ** The penalty in exact arithmetic

    The same sum of squares over the integers, where nothing is rounded. *)

Definition int_contribution (x l u : Z) : Z :=
  if 0 <? x - u then (x - u) * (x - u)
  else if 0 <? l - x then (l - x) * (l - x)
  else 0.

Fixpoint int_penalty (xs ls us : list Z) : Z :=
  match xs, ls, us with
  | x :: xs', l :: ls', u :: us' => int_contribution x l u + int_penalty xs' ls' us'
  | _, _, _ => 0
  end.

(** The integers that every double of that magnitude represents. *)
Definition small (n : Z) : bool := Z.abs n <? 2 ^ 53.

Definition smalls (l : list Z) : bool := forallb small l.

Fixpoint int_bounds_ordered (ls us : list Z) : bool :=
  match ls, us with
  | [], [] => true
  | l :: ls', u :: us' => (l <? u) && int_bounds_ordered ls' us'
  | _, _ => false
  end.

(** * Facts about binary64 arithmetic

    The operations of [SpecFloat] are characterised as exact operations on
    integers followed by one rounding to nearest-even ([round_at]); the
    order of doubles is the order of their integer values ([ival]). *)

Module DoubleFacts.
Import Double.

Lemma pow2_pos k : 0 <= k -> 0 < 2 ^ k.
Proof. intros. apply Z.pow_pos_nonneg; lia. Qed.

Lemma pow2_split a b : 0 <= a -> 0 <= b -> 2 ^ (a + b) = 2 ^ a * 2 ^ b.
Proof. intros. apply Z.pow_add_r; lia. Qed.

Lemma pow2_le a b : 0 <= a <= b -> 2 ^ a <= 2 ^ b.
Proof. intros. apply Z.pow_le_mono_r; lia. Qed.

Lemma pow2_lt a b : 0 <= a < b -> 2 ^ a < 2 ^ b.
Proof. intros. apply Z.pow_lt_mono_r; lia. Qed.

Lemma Zdigits2_log2 n : 0 < n -> Zdigits2 n = Z.log2 n + 1.
Proof.
  destruct n as [|p|p]; try lia. intros _. simpl.
  assert (H : forall q, digits2_pos q = Pos.size q) by (induction q; simpl; congruence).
  rewrite H. destruct p; simpl; lia.
Qed.

Lemma Zdigits2_bounds n : 0 < n -> 2 ^ (Zdigits2 n - 1) <= n < 2 ^ Zdigits2 n.
Proof.
  intros Hn. rewrite Zdigits2_log2 by done.
  replace (Z.log2 n + 1 - 1) with (Z.log2 n) by lia.
  apply Z.log2_spec. done.
Qed.

Lemma Zdigits2_pos n : 0 < n -> 0 < Zdigits2 n.
Proof. intros. rewrite Zdigits2_log2 by done. pose proof (Z.log2_nonneg n). lia. Qed.

Lemma Zdigits2_shift n j : 0 < n -> 0 <= j -> Zdigits2 (n * 2 ^ j) = Zdigits2 n + j.
Proof.
  intros. pose proof (pow2_pos j).
  rewrite !Zdigits2_log2 by nia. rewrite Z.log2_mul_pow2 by lia. lia.
Qed.

Lemma Zdigits2_mono a b : 0 < a <= b -> Zdigits2 a <= Zdigits2 b.
Proof.
  intros. rewrite !Zdigits2_log2 by lia.
  pose proof (Z.log2_le_mono a b). lia.
Qed.

(** rne facts *)
Lemma rne_cases N k : 0 <= k ->
  let q := N / 2 ^ k in
  let r := N mod 2 ^ k in
  N = q * 2 ^ k + r /\ 0 <= r < 2 ^ k /\
  ((2 * r < 2 ^ k /\ rne N k = q) \/
   (2 * r > 2 ^ k /\ rne N k = q + 1) \/
   (2 * r = 2 ^ k /\ Z.even (rne N k) = true /\ (rne N k = q \/ rne N k = q + 1))).
Proof.
  intros Hk q r. pose proof (pow2_pos k Hk) as Hp.
  pose proof (Z.div_mod N (2 ^ k)) as Hdm.
  pose proof (Z.mod_pos_bound N (2 ^ k) Hp) as Hb.
  split; [subst q r; lia|]. split; [done|].
  unfold rne. fold q r.
  destruct (Z.compare_spec (2 * r) (2 ^ k)) as [He|Hl|Hg].
  - right; right. split; [done|].
    destruct (Z.even q) eqn:Eq.
    + auto.
    + split; [|auto]. rewrite Z.even_add. rewrite Eq. done.
  - left. done.
  - right; left. split; [lia|done].
Qed.

Lemma rne_zero_shift N : rne N 0 = N.
Proof.
  unfold rne. simpl. rewrite Z.mod_1_r, Z.div_1_r. done.
Qed.

Lemma rne_nonneg N k : 0 <= k -> 0 <= N -> 0 <= rne N k.
Proof.
  intros Hk HN. destruct (rne_cases N k Hk) as (H1 & H2 & H3).
  pose proof (pow2_pos k Hk).
  assert (0 <= N / 2 ^ k) by (apply Z.div_pos; lia).
  lia.
Qed.

Lemma rne_mono N1 N2 k : 0 <= k -> N1 <= N2 -> rne N1 k <= rne N2 k.
Proof.
  intros Hk HN.
  destruct (rne_cases N1 k Hk) as (H1 & H2 & H3).
  destruct (rne_cases N2 k Hk) as (G1 & G2 & G3).
  pose proof (pow2_pos k Hk) as Hp.
  set (q1 := N1 / 2 ^ k) in *. set (q2 := N2 / 2 ^ k) in *.
  set (r1 := N1 mod 2 ^ k) in *. set (r2 := N2 mod 2 ^ k) in *.
  assert (q1 <= q2) by (apply Z.div_le_mono; lia).
  destruct (Z.eq_dec q1 q2) as [E|NE].
  - assert (r1 <= r2) by nia.
    destruct H3 as [[? ->]|[[? ->]|(? & Hev & Hq)]];
    destruct G3 as [[? ->]|[[? ->]|(? & Gev & Gq)]]; try lia.
    assert (r1 = r2) by lia.
    destruct Hq as [Hq|Hq], Gq as [Gq|Gq]; try lia.
    rewrite Hq in Hev. rewrite Gq in Gev. rewrite E in Hev.
    rewrite Z.even_add in Hev. rewrite Gev in Hev. simpl in Hev. done.
  - assert (q1 + 1 <= q2) by lia.
    assert (rne N1 k <= q1 + 1) by lia.
    assert (q2 <= rne N2 k) by lia. lia.
Qed.

Lemma rne_scale N k j : 0 <= k -> 0 <= j -> rne (N * 2 ^ j) (k + j) = rne N k.
Proof.
  intros Hk Hj. unfold rne.
  pose proof (pow2_pos k Hk). pose proof (pow2_pos j Hj).
  rewrite pow2_split by lia.
  rewrite Z.div_mul_cancel_r by lia.
  rewrite Z.mul_mod_distr_r by lia.
  replace (2 * (N mod 2 ^ k * 2 ^ j)) with ((2 * (N mod 2 ^ k)) * 2 ^ j) by lia.
  set (a := 2 * (N mod 2 ^ k)). set (b := 2 ^ k) in *. set (c := 2 ^ j) in *.
  destruct (Z.compare_spec a b), (Z.compare_spec (a * c) (b * c)); try done; nia.
Qed.

Lemma rne_exact M k : 0 <= k -> rne (M * 2 ^ k) k = M.
Proof.
  intros. replace k with (0 + k) at 2 by lia. rewrite rne_scale by lia. apply rne_zero_shift.
Qed.

Lemma iter_pos_iter {A : Type} (f : A -> A) p x : SpecFloat.iter_pos f p x = Pos.iter f x p.
Proof.
  revert x. induction p as [p IH|p IH|]; intros x; simpl.
  - rewrite !IH. rewrite !Pos.iter_swap. done.
  - rewrite !IH. done.
  - done.
Qed.

Lemma shr_inv_init N : 0 <= N -> shr_inv N 0 (Build_shr_record N false false).
Proof.
  intros. split; [done|]. exists 0. simpl. split; [lia|]. split; [lia|]. split; [done|lia].
Qed.

Lemma shr_inv_step N k mrs : 0 <= k -> shr_inv N k mrs -> shr_inv N (k + 1) (shr_1 mrs).
Proof.
  intros Hk [Hm (rest & Hr & HN & Hs)].
  pose proof (pow2_pos k Hk) as Hp.
  assert (E1 : 2 ^ (k + 1) = 2 * 2 ^ k) by (rewrite pow2_split by lia; lia).
  assert (E2 : 2 ^ (k + 1 + 1) = 4 * 2 ^ k) by (rewrite pow2_split by lia; lia).
  destruct mrs as [m r s]. simpl in *.
  assert (Hs' : orb r s = true <-> 0 < (if r then 2 ^ k else 0) + rest).
  { destruct r; simpl; [split; [lia|done]|]. rewrite Hs. lia. }
  destruct m as [|[p|p|]|p]; simpl; try lia.
  all: unfold shr_inv; simpl.
  all: (split; [lia|]); exists ((if r then 2 ^ k else 0) + rest).
  all: rewrite E1, E2 in *; repeat split; try tauto; try (destruct r; lia).
Qed.

Lemma shr_inv_iter N p : 0 <= N ->
  shr_inv N (Zpos p) (SpecFloat.iter_pos shr_1 p (Build_shr_record N false false)).
Proof.
  intros HN. rewrite iter_pos_iter.
  apply (Pos.iter_ind _ shr_1 (Build_shr_record N false false)
           (fun p mrs => shr_inv N (Zpos p) mrs)).
  - apply (shr_inv_step N 0); [lia|]. apply shr_inv_init. done.
  - intros q a Ha. rewrite Pos2Z.inj_succ. apply shr_inv_step; [lia|done].
Qed.

Lemma shr_inv_round N k mrs : 0 <= k -> shr_inv N k mrs ->
  round_nearest_even (shr_m mrs) (loc_of_shr_record mrs) = rne N k.
Proof.
  intros Hk [Hm (rest & Hr & HN & Hs)].
  pose proof (pow2_pos k Hk) as Hp.
  assert (E1 : 2 ^ (k + 1) = 2 * 2 ^ k) by (rewrite pow2_split by lia; lia).
  rewrite E1 in HN.
  destruct mrs as [m r s]. simpl in *.
  set (w := (if r then 2 ^ k else 0) + rest) in *.
  assert (Hw : 2 * N = 2 * (m * 2 ^ k) + w) by lia.
  assert (Hw2 : exists h, w = 2 * h) by (exists (N - m * 2 ^ k); lia).
  destruct Hw2 as [h Hh].
  assert (Hh2 : 0 <= h < 2 ^ k) by (subst w; destruct r; lia).
  assert (Hq : N / 2 ^ k = m).
  { symmetry. apply (Z.div_unique N (2 ^ k) m h); lia. }
  assert (Hmod : N mod 2 ^ k = h).
  { symmetry. apply (Z.mod_unique N (2 ^ k) m h); lia. }
  unfold rne. rewrite Hq, Hmod. rewrite <- Hh.
  destruct r, s; simpl; subst w.
  - assert (0 < rest) by (apply Hs; done).
    destruct (Z.compare_spec (2 ^ k + rest) (2 ^ k)); solve [lia | done].
  - assert (~ 0 < rest) by (rewrite <- Hs; done).
    destruct (Z.compare_spec (2 ^ k + rest) (2 ^ k)); solve [lia | done].
  - assert (0 < rest) by (apply Hs; done).
    destruct (Z.compare_spec (0 + rest) (2 ^ k)); solve [lia | done].
  - destruct (Z.compare_spec (0 + rest) (2 ^ k)); solve [lia | done].
Qed.

(** the first shift of binary_round_aux *)
Lemma shr_fexp_round (m : positive) e :
  let t := fexp prec emax (Zdigits2 (Zpos m) + e) in
  e <= t ->
  let '(mrs, e') := shr_fexp prec emax (Zpos m) e loc_Exact in
  e' = t /\ round_nearest_even (shr_m mrs) (loc_of_shr_record mrs) = rne (Zpos m) (t - e).
Proof.
  intros t Ht. unfold shr_fexp. fold t. simpl shr_record_of_loc.
  unfold shr. destruct (t - e) as [|p|p] eqn:Ek; try lia.
  - split; [lia|]. simpl. rewrite rne_zero_shift. done.
  - split; [lia|]. apply shr_inv_round; [lia|]. apply shr_inv_iter. lia.
Qed.

Lemma fexp_eq x : fexp prec emax x = Z.max (x - 53) (-1074).
Proof. reflexivity. Qed.

Lemma fexp_ge_emin x : -1074 <= fexp prec emax x.
Proof. rewrite fexp_eq. lia. Qed.

(** bounds on the rounded mantissa *)
Lemma rne_upper N k : 0 <= k -> 0 < N -> Zdigits2 N - 53 <= k -> rne N k <= 2 ^ 53.
Proof.
  intros Hk HN Hd.
  destruct (rne_cases N k Hk) as (H1 & H2 & H3).
  pose proof (pow2_pos k Hk) as Hp.
  pose proof (Zdigits2_bounds N HN) as [_ Hu].
  pose proof (Zdigits2_pos N HN) as Hdp.
  assert (N / 2 ^ k < 2 ^ 53).
  { apply Z.div_lt_upper_bound; [lia|].
    rewrite <- pow2_split by lia.
    eapply Z.lt_le_trans; [exact Hu|]. apply pow2_le. lia. }
  lia.
Qed.

Lemma rne_lower N k : 0 <= k -> 0 < N -> k = Zdigits2 N - 53 -> 2 ^ 52 <= rne N k.
Proof.
  intros Hk HN Hd.
  destruct (rne_cases N k Hk) as (H1 & H2 & H3).
  pose proof (pow2_pos k Hk) as Hp.
  pose proof (Zdigits2_bounds N HN) as [Hl _].
  assert (2 ^ 52 <= N / 2 ^ k).
  { apply Z.div_le_lower_bound; [lia|].
    rewrite <- pow2_split by lia.
    replace (k + 52) with (Zdigits2 N - 1) by lia. done. }
  lia.
Qed.

Lemma pack_second_shift s q t : -1074 <= t -> 0 <= q <= 2 ^ 53 ->
  (let '(mrs, e) := shr_fexp prec emax q t loc_Exact in
   match shr_m mrs with
   | Z0 => S754_zero s
   | Zpos m => if e <=? emax - prec then S754_finite s m e else S754_infinity s
   | Zneg _ => S754_nan
   end) = pack s q t.
Proof.
  intros Ht Hq. unfold shr_fexp, pack. simpl shr_record_of_loc.
  destruct q as [|p|p]; try lia.
  - simpl Zdigits2. rewrite fexp_eq. unfold shr.
    destruct (Z.max (0 + t - 53) (-1074) - t) eqn:E; try lia. all: done.
  - destruct (Z.ltb_spec (Z.pos p) (2 ^ prec)) as [Hlt|Hge].
    + assert (Hd : Zdigits2 (Z.pos p) <= 53).
      { destruct (Z_le_gt_dec (Zdigits2 (Z.pos p)) 53) as [|Hgt]; [done|].
        pose proof (Zdigits2_bounds (Z.pos p) ltac:(lia)) as [Hl _].
        assert (2 ^ 53 <= 2 ^ (Zdigits2 (Z.pos p) - 1)) by (apply pow2_le; lia).
        unfold prec in Hlt. lia. }
      rewrite fexp_eq. unfold shr.
      destruct (Z.max (Zdigits2 (Z.pos p) + t - 53) (-1074) - t) eqn:E; try lia.
      all: done.
    + assert (Hp : p = 9007199254740992%positive).
      { unfold prec in Hge. change (2 ^ 53) with 9007199254740992 in *. lia. }
      subst p. rewrite fexp_eq.
      change (Zdigits2 9007199254740992) with 54.
      replace (Z.max (54 + t - 53) (-1074) - t) with 1 by lia.
      unfold shr.
      change (SpecFloat.iter_pos shr_1 1 (Build_shr_record 9007199254740992 false false))
        with (Build_shr_record 4503599627370496 false false).
      reflexivity.
Qed.

Theorem binary_round_aux_round_at s (m : positive) e :
  e <= fexp prec emax (Zdigits2 (Zpos m) + e) ->
  binary_round_aux prec emax s (Zpos m) e loc_Exact = round_at e s (Zpos m).
Proof.
  intros Ht. unfold binary_round_aux, round_at.
  pose proof (shr_fexp_round m e Ht) as H.
  destruct (shr_fexp prec emax (Z.pos m) e loc_Exact) as [mrs e'].
  destruct H as [-> ->].
  set (t := fexp prec emax (Zdigits2 (Z.pos m) + e)) in *.
  apply pack_second_shift.
  - apply fexp_ge_emin.
  - split.
    + apply rne_nonneg; lia.
    + apply rne_upper; try lia. subst t. rewrite fexp_eq. lia.
Qed.

Theorem round_at_scale E s N j :
  0 < N -> 0 <= j -> E <= fexp prec emax (Zdigits2 N + E) ->
  round_at (E - j) s (N * 2 ^ j) = round_at E s N.
Proof.
  intros HN Hj HE. unfold round_at.
  rewrite Zdigits2_shift by lia.
  replace (Zdigits2 N + j + (E - j)) with (Zdigits2 N + E) by lia.
  set (t := fexp prec emax (Zdigits2 N + E)) in *.
  replace (t - (E - j)) with ((t - E) + j) by lia.
  rewrite rne_scale by lia. done.
Qed.

Lemma iter_xO_pow2 m d : Zpos (Pos.iter xO m d) = Zpos m * 2 ^ Zpos d.
Proof.
  apply (Pos.iter_ind _ xO m (fun d r => Zpos r = Zpos m * 2 ^ Zpos d)).
  - lia.
  - intros p a Ha. rewrite Pos2Z.inj_succ, Z.pow_succ_r by lia. lia.
Qed.

Theorem binary_round_round_at s m e E :
  E <= e -> E <= -1074 ->
  binary_round prec emax s m e = round_at E s (Zpos m * 2 ^ (e - E)).
Proof.
  intros HEe HE. unfold binary_round.
  change (Z.pos (digits2_pos m)) with (Zdigits2 (Zpos m)).
  set (t := fexp prec emax (Zdigits2 (Zpos m) + e)).
  assert (Ht : -1074 <= t) by apply fexp_ge_emin.
  unfold shl_align. destruct (t - e) as [|p|p] eqn:Ek.
  - rewrite binary_round_aux_round_at by (fold t; lia).
    rewrite <- (round_at_scale e s (Zpos m) (e - E)) by (fold t; lia).
    f_equal. lia.
  - rewrite binary_round_aux_round_at by (fold t; lia).
    rewrite <- (round_at_scale e s (Zpos m) (e - E)) by (fold t; lia).
    f_equal. lia.
  - assert (Hsh : Zpos (Pos.iter xO m p) = Zpos m * 2 ^ (e - t)).
    { rewrite iter_xO_pow2. f_equal. f_equal. lia. }
    assert (Hd : Zdigits2 (Zpos (Pos.iter xO m p)) + t = Zdigits2 (Zpos m) + e).
    { rewrite Hsh, Zdigits2_shift by lia. lia. }
    rewrite binary_round_aux_round_at by (rewrite Hd; fold t; lia).
    rewrite <- (round_at_scale t s (Zpos (Pos.iter xO m p)) (t - E))
      by (try rewrite Hd; fold t; lia).
    f_equal; [lia|]. rewrite Hsh. rewrite <- Z.mul_assoc, <- pow2_split by lia.
    f_equal. f_equal. lia.
Qed.

Lemma bounded_inv m e : bounded prec emax m e = true ->
  -1074 <= e <= 971 /\ Zdigits2 (Zpos m) <= 53 /\ (-1074 < e -> Zdigits2 (Zpos m) = 53).
Proof.
  unfold bounded, canonical_mantissa. rewrite andb_true_iff.
  change (Z.pos (digits2_pos m)) with (Zdigits2 (Zpos m)).
  rewrite fexp_eq. unfold emax, prec. intros [H1 H2].
  apply Z.eqb_eq in H1. apply Z.leb_le in H2. lia.
Qed.

Lemma bounded_intro m e :
  -1074 <= e <= 971 -> Zdigits2 (Zpos m) <= 53 -> (-1074 < e -> Zdigits2 (Zpos m) = 53) ->
  bounded prec emax m e = true.
Proof.
  intros H1 H2 H3. unfold bounded, canonical_mantissa. rewrite andb_true_iff.
  change (Z.pos (digits2_pos m)) with (Zdigits2 (Zpos m)).
  rewrite fexp_eq. unfold emax, prec. split.
  - apply Z.eqb_eq. lia.
  - apply Z.leb_le. lia.
Qed.

Lemma Zdigits2_le_53 q : 0 < q -> q < 2 ^ 53 -> Zdigits2 q <= 53.
Proof.
  intros Hq Hlt.
  destruct (Z_le_gt_dec (Zdigits2 q) 53) as [|Hgt]; [done|].
  pose proof (Zdigits2_bounds q Hq) as [Hl _].
  assert (2 ^ 53 <= 2 ^ (Zdigits2 q - 1)) by (apply pow2_le; lia). lia.
Qed.

Lemma Zdigits2_ge_53 q : 2 ^ 52 <= q -> 53 <= Zdigits2 q.
Proof.
  intros Hq. assert (0 < q) by (pose proof (pow2_pos 52); lia).
  destruct (Z_le_gt_dec 53 (Zdigits2 q)) as [|Hgt]; [done|].
  pose proof (Zdigits2_bounds q H) as [_ Hu].
  assert (2 ^ (Zdigits2 q) <= 2 ^ 52) by (pose proof (Zdigits2_pos q H); apply pow2_le; lia). lia.
Qed.

(** what [pack] returns: zero, an overflow, or the canonical double of the value *)
Lemma pack_spec s q t :
  -1074 <= t -> 0 <= q <= 2 ^ 53 -> (-1074 < t -> 2 ^ 52 <= q) ->
  (q = 0 /\ pack s q t = S754_zero s) \/
  (0 < q /\ 2 ^ 2098 <= q * 2 ^ (t + 1074) /\ pack s q t = S754_infinity s) \/
  (0 < q /\ q * 2 ^ (t + 1074) < 2 ^ 2098 /\
   exists m e, pack s q t = S754_finite s m e /\ bounded prec emax m e = true /\
               Zpos m * 2 ^ (e + 1074) = q * 2 ^ (t + 1074)).
Proof.
  intros Ht Hq Hn. unfold pack.
  destruct q as [|p|p]; try lia; [left; done|right].
  pose proof (pow2_pos (t + 1074) ltac:(lia)) as Hp.
  destruct (Z.ltb_spec (Z.pos p) (2 ^ prec)) as [Hlt|Hge]; unfold prec, emax in *.
  - destruct (Z.leb_spec t (1024 - 53)) as [Hle|Hgt].
    + right. split; [lia|]. split.
      * replace 2098 with (53 + 2045) by lia. rewrite (pow2_split 53 2045) by lia.
        assert (2 ^ (t + 1074) <= 2 ^ 2045) by (apply pow2_le; lia).
        pose proof (pow2_pos 2045). nia.
      * exists p, t. split; [done|]. split; [|done].
        apply bounded_intro; [lia| |].
        -- apply Zdigits2_le_53; lia.
        -- intros H. specialize (Hn H).
           pose proof (Zdigits2_le_53 (Z.pos p) ltac:(lia) Hlt).
           pose proof (Zdigits2_ge_53 (Z.pos p) Hn). lia.
    + left. split; [lia|]. split; [|done].
      specialize (Hn ltac:(lia)).
      replace 2098 with (52 + 2046) by lia. rewrite (pow2_split 52 2046) by lia.
      assert (2 ^ 2046 <= 2 ^ (t + 1074)) by (apply pow2_le; lia).
      pose proof (pow2_pos 2046). pose proof (pow2_pos 52). nia.
  - assert (Hp53 : p = 9007199254740992%positive).
    { change (2 ^ 53) with 9007199254740992 in *. lia. }
    subst p. change (Z.pos 9007199254740992) with (2 ^ 53).
    destruct (Z.leb_spec (t + 1) (1024 - 53)) as [Hle|Hgt].
    + right. split; [apply pow2_pos; lia|]. split.
      * rewrite <- pow2_split by lia. apply pow2_lt. lia.
      * exists 4503599627370496%positive, (t + 1). split; [done|]. split.
        -- apply bounded_intro; [lia| |]; change (Zdigits2 4503599627370496) with 53; lia.
        -- change (Z.pos 4503599627370496) with (2 ^ 52).
           rewrite <- !pow2_split by lia. f_equal. lia.
    + left. split; [apply pow2_pos; lia|]. split; [|done].
      rewrite <- pow2_split by lia. apply pow2_le. lia.
Qed.

(** the side conditions of [pack_spec] hold inside [round_at] *)
Lemma round_at_side E N :
  0 < N -> E <= fexp prec emax (Zdigits2 N + E) ->
  let t := fexp prec emax (Zdigits2 N + E) in
  let q := rne N (t - E) in
  -1074 <= t /\ 0 <= q <= 2 ^ 53 /\ (-1074 < t -> 2 ^ 52 <= q).
Proof.
  intros HN HE t q. split; [apply fexp_ge_emin|]. split; [split|].
  - apply rne_nonneg; lia.
  - apply rne_upper; try lia. subst t. rewrite fexp_eq. lia.
  - intros Ht. apply rne_lower; try lia. subst t. rewrite fexp_eq in *. lia.
Qed.

Theorem round_at_valid E s N :
  0 < N -> E <= fexp prec emax (Zdigits2 N + E) ->
  valid_binary prec emax (round_at E s N) = true.
Proof.
  intros HN HE. destruct (round_at_side E N HN HE) as (H1 & H2 & H3).
  unfold round_at.
  destruct (pack_spec s _ _ H1 H2 H3) as [[_ ->]|[(_ & _ & ->)|(_ & _ & m & e & -> & Hb & _)]];
    done.
Qed.

Theorem round_at_canonical s m e :
  bounded prec emax m e = true ->
  round_at (-1074) s (Zpos m * 2 ^ (e + 1074)) = S754_finite s m e.
Proof.
  intros Hb. destruct (bounded_inv m e Hb) as (He & Hd & Hn).
  unfold round_at. rewrite Zdigits2_shift by lia.
  assert (Ht : fexp prec emax (Zdigits2 (Z.pos m) + (e + 1074) + -1074) = e).
  { rewrite fexp_eq. lia. }
  rewrite Ht. replace (e - -1074) with (e + 1074) by lia.
  rewrite rne_exact by lia. unfold pack.
  pose proof (Zdigits2_bounds (Zpos m) ltac:(lia)) as [_ Hu].
  assert (2 ^ Zdigits2 (Zpos m) <= 2 ^ 53).
  { apply pow2_le. pose proof (Zdigits2_pos (Zpos m)). lia. }
  destruct (Z.ltb_spec (Z.pos m) (2 ^ prec)) as [_|Hge]; [|unfold prec in Hge; lia].
  destruct (Z.leb_spec e (emax - prec)) as [_|Hgt]; [done|unfold emax, prec in Hgt; lia].
Qed.

Lemma rne_times_upper N k : 0 < N -> 0 <= k -> rne N k * 2 ^ k <= 2 ^ Zdigits2 N.
Proof.
  intros HN Hk.
  destruct (rne_cases N k Hk) as (H1 & H2 & H3).
  pose proof (pow2_pos k Hk) as Hp.
  pose proof (Zdigits2_bounds N HN) as [_ Hu].
  pose proof (Zdigits2_pos N HN) as Hdp.
  set (d := Zdigits2 N) in *.
  destruct (Z_le_gt_dec k d) as [Hle|Hgt].
  - assert (Hq : N / 2 ^ k < 2 ^ (d - k)).
    { apply Z.div_lt_upper_bound; [lia|]. rewrite <- pow2_split by lia.
      replace (k + (d - k)) with d by lia. done. }
    assert (rne N k <= 2 ^ (d - k)) by lia.
    assert (2 ^ d = 2 ^ (d - k) * 2 ^ k) by (rewrite <- pow2_split by lia; f_equal; lia).
    nia.
  - assert (2 ^ d <= 2 ^ (k - 1)) by (apply pow2_le; lia).
    assert (2 ^ k = 2 * 2 ^ (k - 1)).
    { replace k with (1 + (k - 1)) at 1 by lia. rewrite pow2_split by lia. lia. }
    assert (Hq : N / 2 ^ k = 0) by (apply Z.div_small; lia).
    assert (Hr : N mod 2 ^ k = N) by (apply Z.mod_small; lia).
    rewrite Hq, Hr in *. assert (rne N k = 0) by lia.
    pose proof (pow2_pos d). nia.
Qed.

Lemma round_core_mono E N1 N2 :
  0 < N1 <= N2 -> E <= -1074 ->
  let t1 := fexp prec emax (Zdigits2 N1 + E) in
  let t2 := fexp prec emax (Zdigits2 N2 + E) in
  rne N1 (t1 - E) * 2 ^ (t1 - E) <= rne N2 (t2 - E) * 2 ^ (t2 - E).
Proof.
  intros HN HE t1 t2.
  pose proof (Zdigits2_mono N1 N2 HN) as Hd.
  assert (Ht1 : -1074 <= t1) by apply fexp_ge_emin.
  assert (Ht12 : t1 <= t2) by (subst t1 t2; rewrite !fexp_eq; lia).
  destruct (Z.eq_dec t1 t2) as [Heq|Hne].
  - rewrite <- Heq. pose proof (pow2_pos (t1 - E) ltac:(lia)).
    pose proof (rne_mono N1 N2 (t1 - E) ltac:(lia) ltac:(lia)). nia.
  - assert (Hk2 : t2 - E = Zdigits2 N2 - 53) by (subst t1 t2; rewrite !fexp_eq in *; lia).
    assert (Hd12 : Zdigits2 N1 < Zdigits2 N2) by (subst t1 t2; rewrite !fexp_eq in *; lia).
    pose proof (rne_lower N2 (t2 - E) ltac:(lia) ltac:(lia) Hk2) as Hq2.
    pose proof (rne_times_upper N1 (t1 - E) ltac:(lia) ltac:(lia)) as Hq1.
    assert (2 ^ Zdigits2 N1 <= 2 ^ (Zdigits2 N2 - 1)).
    { apply pow2_le. pose proof (Zdigits2_pos N1). lia. }
    assert (2 ^ (Zdigits2 N2 - 1) = 2 ^ 52 * 2 ^ (t2 - E)).
    { rewrite <- pow2_split by lia. f_equal. lia. }
    pose proof (pow2_pos (t2 - E) ltac:(lia)). nia.
Qed.

Lemma SFcompare_finite s1 m1 e1 s2 m2 e2 :
  bounded prec emax m1 e1 = true -> bounded prec emax m2 e2 = true ->
  SFcompare (S754_finite s1 m1 e1) (S754_finite s2 m2 e2)
  = Some (ival (S754_finite s1 m1 e1) ?= ival (S754_finite s2 m2 e2)).
Proof.
  intros Hb1 Hb2.
  destruct (bounded_inv m1 e1 Hb1) as (He1 & Hd1 & Hn1).
  destruct (bounded_inv m2 e2 Hb2) as (He2 & Hd2 & Hn2).
  pose proof (Zdigits2_bounds (Zpos m1) ltac:(lia)) as [Hl1 Hu1].
  pose proof (Zdigits2_bounds (Zpos m2) ltac:(lia)) as [Hl2 Hu2].
  pose proof (pow2_pos (e1 + 1074) ltac:(lia)) as Hp1.
  pose proof (pow2_pos (e2 + 1074) ltac:(lia)) as Hp2.
  assert (Hlt : forall ma ea mb eb,
            -1074 <= ea < eb -> Zdigits2 (Zpos ma) <= 53 -> Zdigits2 (Zpos mb) = 53 ->
            Zpos ma * 2 ^ (ea + 1074) < Zpos mb * 2 ^ (eb + 1074)).
  { intros ma ea mb eb Hab Hda Hdb.
    pose proof (Zdigits2_bounds (Zpos ma) ltac:(lia)) as [_ Hua].
    pose proof (Zdigits2_bounds (Zpos mb) ltac:(lia)) as [Hlb _].
    rewrite Hdb in Hlb. change (2 ^ (53 - 1)) with (2 ^ 52) in Hlb.
    assert (2 ^ Zdigits2 (Zpos ma) <= 2 ^ 53).
    { apply pow2_le. pose proof (Zdigits2_pos (Zpos ma)). lia. }
    replace (eb + 1074) with ((eb - ea) + (ea + 1074)) by lia.
    rewrite (pow2_split (eb - ea) (ea + 1074)) by lia.
    assert (2 ^ 1 <= 2 ^ (eb - ea)) by (apply pow2_le; lia).
    change (2 ^ 1) with 2 in *. change (2 ^ 53) with (2 * 2 ^ 52) in *.
    pose proof (pow2_pos (ea + 1074) ltac:(lia)). pose proof (pow2_pos 52).
    set (P := 2 ^ (ea + 1074)) in *. set (Q := 2 ^ (eb - ea)) in *.
    set (B := 2 ^ 52) in *. set (U := 2 ^ Zdigits2 (Z.pos ma)) in *.
    assert (Z.pos ma < Z.pos mb * Q) by nia.
    rewrite Z.mul_assoc. apply Z.mul_lt_mono_pos_r; lia. }
  unfold SFcompare, ival, cond_Zopp. f_equal.
  change (Pos.compare_cont Eq m1 m2) with (Z.pos m1 ?= Z.pos m2).
  destruct s1, s2.
  - destruct (Z.compare_spec e1 e2) as [->|H|H].
    + unfold CompOpp.
      destruct (Z.compare_spec (Z.pos m1) (Z.pos m2)) as [Hm|Hm|Hm]; symmetry.
      * apply Z.compare_eq_iff. rewrite Hm. done.
      * apply Z.compare_gt_iff. nia.
      * apply Z.compare_lt_iff. nia.
    + symmetry. apply Z.compare_gt_iff.
      pose proof (Hlt m1 e1 m2 e2 ltac:(lia) Hd1 ltac:(lia)). lia.
    + symmetry. apply Z.compare_lt_iff.
      pose proof (Hlt m2 e2 m1 e1 ltac:(lia) Hd2 ltac:(lia)). lia.
  - symmetry. apply Z.compare_lt_iff. nia.
  - symmetry. apply Z.compare_gt_iff. nia.
  - destruct (Z.compare_spec e1 e2) as [->|H|H].
    + destruct (Z.compare_spec (Z.pos m1) (Z.pos m2)) as [Hm|Hm|Hm]; symmetry.
      * apply Z.compare_eq_iff. rewrite Hm. done.
      * apply Z.compare_lt_iff. nia.
      * apply Z.compare_gt_iff. nia.
    + symmetry. apply Z.compare_lt_iff.
      pose proof (Hlt m1 e1 m2 e2 ltac:(lia) Hd1 ltac:(lia)). lia.
    + symmetry. apply Z.compare_gt_iff.
      pose proof (Hlt m2 e2 m1 e1 ltac:(lia) Hd2 ltac:(lia)). lia.
Qed.

Theorem round_at_mono E N1 N2 :
  0 < N1 <= N2 -> E <= -1074 ->
  SFleb (round_at E false N1) (round_at E false N2) = true.
Proof.
  intros HN HE.
  assert (HE1 : E <= fexp prec emax (Zdigits2 N1 + E)) by (rewrite fexp_eq; lia).
  assert (HE2 : E <= fexp prec emax (Zdigits2 N2 + E)) by (rewrite fexp_eq; lia).
  pose proof (round_at_side E N1 ltac:(lia) HE1) as HA. cbv zeta in HA.
  destruct HA as (A1 & A2 & A3).
  pose proof (round_at_side E N2 ltac:(lia) HE2) as HB. cbv zeta in HB.
  destruct HB as (B1 & B2 & B3).
  pose proof (round_core_mono E N1 N2 HN HE) as Hcore. cbv zeta in Hcore.
  unfold round_at.
  set (t1 := fexp prec emax (Zdigits2 N1 + E)) in *.
  set (t2 := fexp prec emax (Zdigits2 N2 + E)) in *.
  set (q1 := rne N1 (t1 - E)) in *. set (q2 := rne N2 (t2 - E)) in *.
  assert (HV : q1 * 2 ^ (t1 + 1074) <= q2 * 2 ^ (t2 + 1074)).
  { replace (t1 - E) with ((t1 + 1074) + (-1074 - E)) in Hcore by lia.
    replace (t2 - E) with ((t2 + 1074) + (-1074 - E)) in Hcore by lia.
    rewrite (pow2_split (t1 + 1074) (-1074 - E)) in Hcore by lia.
    rewrite (pow2_split (t2 + 1074) (-1074 - E)) in Hcore by lia.
    pose proof (pow2_pos (-1074 - E) ltac:(lia)). nia. }
  pose proof (pow2_pos (t1 + 1074) ltac:(lia)).
  pose proof (pow2_pos (t2 + 1074) ltac:(lia)).
  destruct (pack_spec false q1 t1 A1 A2 A3)
    as [[Z1 ->]|[(P1 & V1 & ->)|(P1 & V1 & m1 & e1 & -> & Hb1 & Hv1)]];
  destruct (pack_spec false q2 t2 B1 B2 B3)
    as [[Z2 ->]|[(P2 & V2 & ->)|(P2 & V2 & m2 & e2 & -> & Hb2 & Hv2)]];
    try done; try nia.
  unfold SFleb. rewrite SFcompare_finite by done. simpl ival.
  rewrite Hv1, Hv2.
  destruct (Z.compare_spec (q1 * 2 ^ (t1 + 1074)) (q2 * 2 ^ (t2 + 1074))); try done. lia.
Qed.


Lemma ival_finite_pos m e : -1074 <= e -> 0 < Zpos m * 2 ^ (e + 1074).
Proof. intros. pose proof (pow2_pos (e + 1074) ltac:(lia)). nia. Qed.

Lemma ival_sign s m e : bounded prec emax m e = true ->
  (ival (S754_finite s m e) <? 0) = s /\ ival (S754_finite s m e) <> 0 /\
  Z.abs (ival (S754_finite s m e)) = Zpos m * 2 ^ (e + 1074).
Proof.
  intros Hb. destruct (bounded_inv m e Hb) as (He & _).
  pose proof (ival_finite_pos m e ltac:(lia)).
  unfold ival, cond_Zopp. destruct s.
  - split; [apply Z.ltb_lt; lia|]. lia.
  - split; [apply Z.ltb_ge; lia|]. lia.
Qed.

Lemma SFcompare_ival a b :
  is_double a -> is_double b -> is_finite a = true -> is_finite b = true ->
  SFcompare a b = Some (ival a ?= ival b).
Proof.
  unfold is_double. intros Va Vb Fa Fb.
  destruct a as [sa| | |sa ma ea], b as [sb| | |sb mb eb]; try done.
  - simpl in Vb. destruct (ival_sign sb mb eb Vb) as (H1 & H2 & H3).
    simpl SFcompare. f_equal. change (ival (S754_zero sa)) with 0.
    symmetry. destruct sb.
    + apply Z.compare_gt_iff. apply Z.ltb_lt in H1. lia.
    + apply Z.compare_lt_iff. apply Z.ltb_ge in H1. lia.
  - simpl in Va. destruct (ival_sign sa ma ea Va) as (H1 & H2 & H3).
    simpl SFcompare. f_equal. change (ival (S754_zero sb)) with 0.
    symmetry. destruct sa.
    + apply Z.compare_lt_iff. apply Z.ltb_lt in H1. lia.
    + apply Z.compare_gt_iff. apply Z.ltb_ge in H1. lia.
  - apply SFcompare_finite; done.
Qed.

Lemma shl_align_fst m e ez : ez <= e ->
  Zpos (fst (shl_align m e ez)) = Zpos m * 2 ^ (e - ez).
Proof.
  intros H. unfold shl_align. destruct (ez - e) as [|p|p] eqn:E; try lia; simpl fst.
  - replace (e - ez) with 0 by lia. lia.
  - rewrite iter_xO_pow2. f_equal. f_equal. lia.
Qed.

Lemma binary_normalize_round D ez :
  -1074 <= ez ->
  binary_normalize prec emax D ez false =
  if D =? 0 then S754_zero false
  else round_at (-1074) (D <? 0) (Z.abs (D * 2 ^ (ez + 1074))).
Proof.
  intros He. pose proof (pow2_pos (ez + 1074) ltac:(lia)) as Hp.
  destruct D as [|p|p]; simpl binary_normalize; [done| |].
  - rewrite (binary_round_round_at _ _ _ (-1074)) by lia.
    replace (ez - -1074) with (ez + 1074) by lia.
    change (Z.pos p =? 0) with false. change (Z.pos p <? 0) with false.
    cbv iota. f_equal. lia.
  - rewrite (binary_round_round_at _ _ _ (-1074)) by lia.
    replace (ez - -1074) with (ez + 1074) by lia.
    change (Z.neg p =? 0) with false. change (Z.neg p <? 0) with true.
    cbv iota. f_equal. lia.
Qed.

(** Subtraction of finite doubles is the rounding of the exact difference. *)
Theorem sub_round a b :
  is_double a -> is_double b -> is_finite a = true -> is_finite b = true ->
  let D := ival a - ival b in
  (D = 0 /\ exists s, sub a b = S754_zero s) \/
  (D <> 0 /\ sub a b = round_at (-1074) (D <? 0) (Z.abs D)).
Proof.
  intros Va Vb Fa Fb D. unfold is_double in *.
  destruct a as [sa| | |sa ma ea], b as [sb| | |sb mb eb]; try done.
  - left. split; [done|]. destruct sa, sb; simpl; eauto.
  - right. simpl in Vb. destruct (ival_sign sb mb eb Vb) as (H1 & H2 & H3).
    subst D. change (ival (S754_zero sa)) with 0. split; [lia|].
    replace (Z.abs (0 - ival (S754_finite sb mb eb))) with (Zpos mb * 2 ^ (eb + 1074)) by lia.
    assert (Hs : (0 - ival (S754_finite sb mb eb) <? 0) = negb sb).
    { destruct sb; simpl negb.
      - apply Z.ltb_lt in H1. apply Z.ltb_ge. lia.
      - apply Z.ltb_ge in H1. apply Z.ltb_lt. lia. }
    rewrite Hs, round_at_canonical by done. done.
  - right. simpl in Va. destruct (ival_sign sa ma ea Va) as (H1 & H2 & H3).
    subst D. change (ival (S754_zero sb)) with 0. rewrite Z.sub_0_r. split; [done|].
    rewrite H1, H3. rewrite round_at_canonical by done. done.
  - simpl in Va, Vb.
    destruct (bounded_inv ma ea Va) as (Hea & _).
    destruct (bounded_inv mb eb Vb) as (Heb & _).
    unfold sub, SFsub. set (ez := Z.min ea eb).
    rewrite !shl_align_fst by lia.
    rewrite binary_normalize_round by lia.
    set (Dz := cond_Zopp sa (Z.pos ma * 2 ^ (ea - ez)) - cond_Zopp sb (Z.pos mb * 2 ^ (eb - ez))).
    assert (HD : D = Dz * 2 ^ (ez + 1074)).
    { subst D Dz. unfold ival.
      replace (ea + 1074) with ((ea - ez) + (ez + 1074)) by lia.
      replace (eb + 1074) with ((eb - ez) + (ez + 1074)) by lia.
      rewrite (pow2_split (ea - ez)), (pow2_split (eb - ez)) by lia.
      unfold cond_Zopp. destruct sa, sb; lia. }
    pose proof (pow2_pos (ez + 1074) ltac:(lia)) as Hp.
    destruct (Z.eqb_spec Dz 0) as [Hz|Hnz].
    + left. split; [nia|eauto].
    + right. split; [nia|]. rewrite <- HD. f_equal.
      destruct (Z.ltb_spec Dz 0), (Z.ltb_spec D 0); try done; nia.
Qed.

Lemma Zdigits2_mul_ge a b : 0 < a -> 0 < b -> Zdigits2 a + Zdigits2 b - 1 <= Zdigits2 (a * b).
Proof.
  intros Ha Hb.
  pose proof (Zdigits2_bounds a Ha) as [Hla _]. pose proof (Zdigits2_bounds b Hb) as [Hlb _].
  pose proof (Zdigits2_pos a Ha). pose proof (Zdigits2_pos b Hb).
  assert (H2 : 2 ^ (Zdigits2 a - 1 + (Zdigits2 b - 1)) <= a * b).
  { rewrite pow2_split by lia.
    pose proof (pow2_pos (Zdigits2 a - 1) ltac:(lia)).
    pose proof (pow2_pos (Zdigits2 b - 1) ltac:(lia)). nia. }
  rewrite (Zdigits2_log2 (a * b)) by nia.
  apply Z.log2_le_pow2 in H2; [lia|nia].
Qed.

(** Multiplication of finite non-zero doubles is the rounding of the exact
    product, counted in units of [2 ^ -2148]. *)
Theorem mul_round sa ma ea sb mb eb :
  bounded prec emax ma ea = true -> bounded prec emax mb eb = true ->
  mul (S754_finite sa ma ea) (S754_finite sb mb eb)
  = round_at (-2148) (xorb sa sb)
      ((Zpos ma * 2 ^ (ea + 1074)) * (Zpos mb * 2 ^ (eb + 1074))).
Proof.
  intros Ha Hb.
  destruct (bounded_inv ma ea Ha) as (Hea & Hda & Hna).
  destruct (bounded_inv mb eb Hb) as (Heb & Hdb & Hnb).
  pose proof (Zdigits2_mul_ge (Zpos ma) (Zpos mb) ltac:(lia) ltac:(lia)) as Hd.
  pose proof (Zdigits2_pos (Zpos ma) ltac:(lia)).
  pose proof (Zdigits2_pos (Zpos mb) ltac:(lia)).
  assert (Hside : ea + eb <= fexp prec emax (Zdigits2 (Zpos ma * Zpos mb) + (ea + eb))).
  { rewrite fexp_eq. lia. }
  unfold mul, SFmul.
  rewrite binary_round_aux_round_at by exact Hside.
  change (Z.pos (ma * mb)) with (Zpos ma * Zpos mb).
  rewrite <- (round_at_scale (ea + eb) _ _ (ea + eb + 2148)) by (done || lia).
  f_equal; [lia|].
  replace (ea + eb + 2148) with ((ea + 1074) + (eb + 1074)) by lia.
  rewrite (pow2_split (ea + 1074) (eb + 1074)) by lia. lia.
Qed.

Lemma one_eq : one = S754_finite false 4503599627370496 (-52).
Proof. reflexivity. Qed.

(** [1.0 * a] is [a]. *)
Theorem mul_one_l a : is_double a -> mul one a = a.
Proof.
  unfold is_double. intros Va. rewrite one_eq.
  destruct a as [s|s| |s m e]; try done.
  simpl in Va. rewrite mul_round by done.
  destruct (bounded_inv m e Va) as (He & _).
  pose proof (ival_finite_pos m e ltac:(lia)).
  change (Z.pos 4503599627370496 * 2 ^ (-52 + 1074)) with (2 ^ 1074).
  rewrite Z.mul_comm.
  change (-2148) with (-1074 - 1074).
  rewrite round_at_scale; [|lia|lia|rewrite fexp_eq; lia].
  apply round_at_canonical. done.
Qed.

Lemma round_at_nonneg E N :
  0 < N -> E <= fexp prec emax (Zdigits2 N + E) ->
  is_nonneg (round_at E false N) = true.
Proof.
  intros HN HE. pose proof (round_at_side E N HN HE) as H. cbv zeta in H.
  destruct H as (H1 & H2 & H3). unfold round_at.
  destruct (pack_spec false _ _ H1 H2 H3) as [[_ ->]|[(_ & _ & ->)|(_ & _ & m & e & -> & _)]];
    done.
Qed.

Lemma round_at_neg_not_pos E N :
  0 < N -> E <= fexp prec emax (Zdigits2 N + E) ->
  SFltb (S754_zero false) (round_at E true N) = false.
Proof.
  intros HN HE. pose proof (round_at_side E N HN HE) as H. cbv zeta in H.
  destruct H as (H1 & H2 & H3). unfold round_at.
  destruct (pack_spec true _ _ H1 H2 H3) as [[_ ->]|[(_ & _ & ->)|(_ & _ & m & e & -> & _)]];
    done.
Qed.

(** rounding a non-zero integer multiple of [2 ^ -1074] never yields zero *)
Lemma round_at_emin_pos N :
  0 < N -> is_pos (round_at (-1074) false N) = true.
Proof.
  intros HN.
  assert (HE : -1074 <= fexp prec emax (Zdigits2 N + -1074)) by apply fexp_ge_emin.
  pose proof (round_at_side (-1074) N HN HE) as H. cbv zeta in H.
  destruct H as (H1 & H2 & H3). unfold round_at.
  destruct (pack_spec false _ _ H1 H2 H3) as [[Hz _]|[(_ & _ & ->)|(_ & _ & m & e & -> & _)]];
    try done.
  exfalso. revert Hz.
  set (t := fexp prec emax (Zdigits2 N + -1074)) in *.
  destruct (Z.eq_dec t (-1074)) as [Ht|Ht].
  - rewrite Ht. change (-1074 - -1074) with 0. rewrite rne_zero_shift. lia.
  - specialize (H3 ltac:(lia)). pose proof (pow2_pos 52). lia.
Qed.

Lemma gt_zero_pos c : gt c zero = true -> is_pos c = true.
Proof. destruct c as [s|[|]| |[|] m e]; done. Qed.

Lemma pos_gt_zero c : is_pos c = true -> gt c zero = true.
Proof. destruct c as [s|[|]| |[|] m e]; done. Qed.

Lemma pos_nonneg c : is_pos c = true -> is_nonneg c = true.
Proof. destruct c as [s|[|]| |[|] m e]; done. Qed.

Theorem square_nonneg c :
  is_double c -> is_pos c = true -> is_nonneg (mul c c) = true /\ is_double (mul c c).
Proof.
  unfold is_double. intros Vc Pc.
  destruct c as [s|[|]| |[|] m e]; try done.
  simpl in Vc. rewrite mul_round by done.
  destruct (bounded_inv m e Vc) as (He & _).
  pose proof (ival_finite_pos m e ltac:(lia)).
  split; [apply round_at_nonneg|apply round_at_valid]; try nia; rewrite fexp_eq; lia.
Qed.

Theorem add_nonneg a b :
  is_double a -> is_double b -> is_nonneg a = true -> is_nonneg b = true ->
  is_nonneg (add a b) = true /\ is_double (add a b).
Proof.
  unfold is_double. intros Va Vb Na Nb.
  destruct a as [[|]|[|]| |[|] ma ea]; try done;
  destruct b as [[|]|[|]| |[|] mb eb]; try done.
  simpl in Va, Vb.
  destruct (bounded_inv ma ea Va) as (Hea & _).
  destruct (bounded_inv mb eb Vb) as (Heb & _).
  unfold add, SFadd. rewrite binary_normalize_round by lia.
  unfold cond_Zopp.
  set (D := Z.pos (fst (shl_align ma ea (Z.min ea eb))) + Z.pos (fst (shl_align mb eb (Z.min ea eb)))).
  assert (0 < D) by lia.
  pose proof (pow2_pos (Z.min ea eb + 1074) ltac:(lia)).
  destruct (Z.eqb_spec D 0); [lia|]. destruct (Z.ltb_spec D 0); [lia|].
  split; [apply round_at_nonneg|apply round_at_valid]; try nia; apply fexp_ge_emin.
Qed.

Lemma add_zero_r a : is_nonneg a = true -> add a zero = a.
Proof. destruct a as [[|]|[|]| |[|] m e]; done. Qed.

Lemma add_zero_l a : is_nonneg a = true -> add zero a = a.
Proof. destruct a as [[|]|[|]| |[|] m e]; done. Qed.

Theorem sub_valid a b : is_double a -> is_double b -> is_double (sub a b).
Proof.
  intros Va Vb.
  destruct (is_finite a) eqn:Fa, (is_finite b) eqn:Fb.
  - destruct (sub_round a b Va Vb Fa Fb) as [[_ [s ->]]|[Hn ->]]; [done|].
    apply round_at_valid; [lia|apply fexp_ge_emin].
  - destruct a as [sa|sa| |sa ma ea], b as [[|]|[|]| |sb mb eb]; done.
  - destruct a as [sa|[|]| |sa ma ea], b as [[|]|[|]| |sb mb eb]; done.
  - destruct a as [sa|[|]| |sa ma ea], b as [[|]|[|]| |sb mb eb]; done.
Qed.

(** [a <= b] implies that [a - b > 0.0] is false. *)
Theorem sub_le_not_pos a b :
  is_double a -> is_double b -> le a b = true -> gt (sub a b) zero = false.
Proof.
  intros Va Vb Hle.
  destruct (is_finite a) eqn:Fa, (is_finite b) eqn:Fb.
  - unfold le, SFleb in Hle. rewrite SFcompare_ival in Hle by done.
    destruct (sub_round a b Va Vb Fa Fb) as [[_ [s ->]]|[Hn ->]]; [done|].
    destruct (Z.compare_spec (ival a) (ival b)) as [He|Hl|Hg]; try done; try lia.
    replace (ival a - ival b <? 0) with true by (symmetry; apply Z.ltb_lt; lia).
    apply round_at_neg_not_pos; [lia|apply fexp_ge_emin].
  - destruct a as [sa|sa| |sa ma ea], b as [[|]|[|]| |sb mb eb]; try done.
    all: destruct sa; done.
  - destruct a as [sa|[|]| |sa ma ea], b as [[|]|[|]| |sb mb eb]; try done.
  - destruct a as [sa|[|]| |sa ma ea], b as [[|]|[|]| |sb mb eb]; try done.
Qed.

(** [b < a] implies that [a - b] is a positive double. *)
Theorem sub_gt_pos a b :
  is_double a -> is_double b -> lt b a = true -> is_pos (sub a b) = true.
Proof.
  intros Va Vb Hlt.
  destruct (is_finite a) eqn:Fa, (is_finite b) eqn:Fb.
  - unfold lt, SFltb in Hlt. rewrite SFcompare_ival in Hlt by done.
    destruct (Z.compare_spec (ival b) (ival a)) as [He|Hl|Hg]; try done.
    destruct (sub_round a b Va Vb Fa Fb) as [[Hz _]|[Hn ->]]; [lia|].
    replace (ival a - ival b <? 0) with false by (symmetry; apply Z.ltb_ge; lia).
    apply round_at_emin_pos. lia.
  - destruct a as [sa|sa| |sa ma ea], b as [[|]|[|]| |sb mb eb]; try done.
    all: destruct sa; done.
  - destruct a as [sa|[|]| |sa ma ea], b as [[|]|[|]| |sb mb eb]; try done.
  - destruct a as [sa|[|]| |sa ma ea], b as [[|]|[|]| |sb mb eb]; try done.
Qed.

Lemma le_pos_infinity c : is_nonneg c = true -> le c (S754_infinity false) = true.
Proof. destruct c as [[|]|[|]| |[|] m e]; done. Qed.

Ltac destruct_double a := destruct a as [[|]|[|]| |[|] ? ?].

Lemma lt_le_trans u x x' :
  is_double u -> is_double x -> is_double x' ->
  lt u x = true -> le x x' = true -> lt u x' = true.
Proof.
  intros Vu Vx Vx' Hlt Hle.
  destruct (is_finite u && is_finite x && is_finite x') eqn:F.
  - apply andb_prop in F as [F Fx']. apply andb_prop in F as [Fu Fx].
    unfold lt, le, SFltb, SFleb in *. rewrite SFcompare_ival in * by done.
    destruct (Z.compare_spec (ival u) (ival x)); try done.
    destruct (Z.compare_spec (ival x) (ival x')); try done.
    all: destruct (Z.compare_spec (ival u) (ival x')); try done; lia.
  - destruct_double u; destruct_double x; try done; destruct_double x'; done.
Qed.

Lemma le_lt_trans x' x l :
  is_double x' -> is_double x -> is_double l ->
  le x' x = true -> lt x l = true -> lt x' l = true.
Proof.
  intros Vx' Vx Vl Hle Hlt.
  destruct (is_finite x' && is_finite x && is_finite l) eqn:F.
  - apply andb_prop in F as [F Fl]. apply andb_prop in F as [Fx' Fx].
    unfold lt, le, SFltb, SFleb in *. rewrite SFcompare_ival in * by done.
    destruct (Z.compare_spec (ival x) (ival l)); try done.
    destruct (Z.compare_spec (ival x') (ival x)); try done.
    all: destruct (Z.compare_spec (ival x') (ival l)); try done; lia.
  - destruct_double x'; destruct_double x; try done; destruct_double l; done.
Qed.

(** Subtraction is non-decreasing in its first argument ... *)
Theorem sub_mono_l x x' u :
  is_double x -> is_double x' -> is_double u ->
  lt u x = true -> le x x' = true -> le (sub x u) (sub x' u) = true.
Proof.
  intros Vx Vx' Vu Hlt Hle.
  pose proof (lt_le_trans u x x' Vu Vx Vx' Hlt Hle) as Hlt'.
  pose proof (sub_gt_pos x u Vx Vu Hlt) as Pc.
  pose proof (sub_gt_pos x' u Vx' Vu Hlt') as Pc'.
  destruct (is_finite u && is_finite x && is_finite x') eqn:F.
  - apply andb_prop in F as [F Fx']. apply andb_prop in F as [Fu Fx].
    unfold lt, le, SFltb in Hlt, Hle. unfold SFleb in Hle.
    rewrite SFcompare_ival in Hlt, Hle by done.
    destruct (Z.compare_spec (ival u) (ival x)); try done.
    assert (ival x <= ival x') by (destruct (Z.compare_spec (ival x) (ival x')); try done; lia).
    destruct (sub_round x u Vx Vu Fx Fu) as [[Hz _]|[Hn ->]]; [lia|].
    destruct (sub_round x' u Vx' Vu Fx' Fu) as [[Hz _]|[Hn' ->]]; [lia|].
    replace (ival x - ival u <? 0) with false by (symmetry; apply Z.ltb_ge; lia).
    replace (ival x' - ival u <? 0) with false by (symmetry; apply Z.ltb_ge; lia).
    apply round_at_mono; lia.
  - destruct_double u; destruct_double x; try done; destruct_double x'; try done.
    all: apply le_pos_infinity, pos_nonneg; done.
Qed.

(** ... and non-increasing in its second. *)
Theorem sub_mono_r l x x' :
  is_double l -> is_double x -> is_double x' ->
  lt x l = true -> le x' x = true -> le (sub l x) (sub l x') = true.
Proof.
  intros Vl Vx Vx' Hlt Hle.
  pose proof (le_lt_trans x' x l Vx' Vx Vl Hle Hlt) as Hlt'.
  pose proof (sub_gt_pos l x Vl Vx Hlt) as Pc.
  pose proof (sub_gt_pos l x' Vl Vx' Hlt') as Pc'.
  destruct (is_finite l && is_finite x && is_finite x') eqn:F.
  - apply andb_prop in F as [F Fx']. apply andb_prop in F as [Fl Fx].
    unfold lt, le, SFltb in Hlt, Hle. unfold SFleb in Hle.
    rewrite SFcompare_ival in Hlt, Hle by done.
    destruct (Z.compare_spec (ival x) (ival l)); try done.
    assert (ival x' <= ival x) by (destruct (Z.compare_spec (ival x') (ival x)); try done; lia).
    destruct (sub_round l x Vl Vx Fl Fx) as [[Hz _]|[Hn ->]]; [lia|].
    destruct (sub_round l x' Vl Vx' Fl Fx') as [[Hz _]|[Hn' ->]]; [lia|].
    replace (ival l - ival x <? 0) with false by (symmetry; apply Z.ltb_ge; lia).
    replace (ival l - ival x' <? 0) with false by (symmetry; apply Z.ltb_ge; lia).
    apply round_at_mono; lia.
  - destruct_double l; destruct_double x; try done; destruct_double x'; try done.
    all: apply le_pos_infinity, pos_nonneg; done.
Qed.

(** Squaring is non-decreasing on the positive doubles. *)
Theorem square_mono c c' :
  is_double c -> is_double c' -> is_pos c = true -> le c c' = true ->
  le (mul c c) (mul c' c') = true.
Proof.
  intros Vc Vc' Pc Hle.
  destruct c as [?|[|]| |[|] m e]; try done.
  - destruct_double c'; done.
  - destruct c' as [?|[|]| |s' m' e']; try done.
    + apply le_pos_infinity. apply square_nonneg; done.
    + unfold is_double in *. simpl in Vc, Vc'.
      unfold le, SFleb in Hle. rewrite SFcompare_finite in Hle by done.
      destruct (bounded_inv m e Vc) as (He & _).
      destruct (bounded_inv m' e' Vc') as (He' & _).
      pose proof (ival_finite_pos m e ltac:(lia)) as Hp.
      pose proof (ival_finite_pos m' e' ltac:(lia)) as Hp'.
      assert (Hs : s' = false /\ Zpos m * 2 ^ (e + 1074) <= Zpos m' * 2 ^ (e' + 1074)).
      { assert (Hc : ival (S754_finite false m e) <= ival (S754_finite s' m' e')).
        { destruct (Z.compare_spec (ival (S754_finite false m e))
                                   (ival (S754_finite s' m' e'))); try done; lia. }
        unfold ival, cond_Zopp in Hc. destruct s'; [lia|done]. }
      destruct Hs as [-> Hs].
      rewrite !mul_round by done. apply round_at_mono; [nia|lia].
Qed.

Lemma le_zero_nonneg c : is_nonneg c = true -> le zero c = true.
Proof. destruct c as [[|]|[|]| |[|] m e]; done. Qed.

(** Multiplication by a positive finite double is non-decreasing on the
    non-negative doubles. *)
Theorem mul_mono_r k p p' :
  is_double k -> is_double p -> is_double p' ->
  is_pos k = true -> is_finite k = true -> is_nonneg p = true ->
  le p p' = true -> le (mul k p) (mul k p') = true.
Proof.
  intros Vk Vp Vp' Pk Fk Np Hle.
  destruct k as [?|?| |[|] mk ek]; try done.
  unfold is_double in *. simpl in Vk.
  destruct (bounded_inv mk ek Vk) as (Hek & _).
  pose proof (ival_finite_pos mk ek ltac:(lia)) as Hk.
  assert (Hround : forall m e, bounded prec emax m e = true ->
            is_nonneg (mul (S754_finite false mk ek) (S754_finite false m e)) = true).
  { intros m e Hb. rewrite mul_round by done.
    destruct (bounded_inv m e Hb) as (He & _).
    pose proof (ival_finite_pos m e ltac:(lia)).
    apply round_at_nonneg; [nia|rewrite fexp_eq; lia]. }
  destruct p as [[|]|[|]| |[|] m e]; try done.
  - destruct p' as [[|]|[|]| |[|] m' e']; try done.
    apply le_zero_nonneg. apply Hround. done.
  - destruct p' as [[|]|[|]| |[|] m' e']; done.
  - simpl in Vp. destruct p' as [[|]|[|]| |s' m' e']; try done.
    + apply le_pos_infinity. apply Hround. done.
    + simpl in Vp'. unfold le, SFleb in Hle. rewrite SFcompare_finite in Hle by done.
      destruct (bounded_inv m e Vp) as (He & _).
      destruct (bounded_inv m' e' Vp') as (He' & _).
      pose proof (ival_finite_pos m e ltac:(lia)) as Hp.
      pose proof (ival_finite_pos m' e' ltac:(lia)) as Hp'.
      assert (Hs : s' = false /\ Zpos m * 2 ^ (e + 1074) <= Zpos m' * 2 ^ (e' + 1074)).
      { assert (Hc : ival (S754_finite false m e) <= ival (S754_finite s' m' e')).
        { destruct (Z.compare_spec (ival (S754_finite false m e))
                                   (ival (S754_finite s' m' e'))); try done; lia. }
        unfold ival, cond_Zopp in Hc. destruct s'; [lia|done]. }
      destruct Hs as [-> Hs].
      rewrite !mul_round by done. apply round_at_mono; [nia|lia].
Qed.

Lemma le_pos_pos c c' :
  is_pos c = true -> le c c' = true -> is_pos c' = true.
Proof.
  intros Pc Hle.
  destruct c as [?|[|]| |[|] m e]; try done;
    destruct c' as [[|]|[|]| |[|] m' e']; done.
Qed.

(** For a positive finite factor [k], the term [k * (c * c)] does not
    decrease when the positive distance [c] grows. *)
Theorem scaled_square_mono k c c' :
  is_double k -> is_double c -> is_double c' ->
  is_pos k = true -> is_finite k = true -> is_pos c = true ->
  le c c' = true -> le (mul k (mul c c)) (mul k (mul c' c')) = true.
Proof.
  intros Vk Vc Vc' Pk Fk Pc Hle.
  pose proof (le_pos_pos c c' Pc Hle) as Pc'.
  destruct (square_nonneg c Vc Pc) as [Ns Vs].
  destruct (square_nonneg c' Vc' Pc') as [Ns' Vs'].
  apply mul_mono_r; try done. apply square_mono; done.
Qed.

(** ** Addition *)

(** Addition of finite doubles is the rounding of the exact sum. *)
Theorem add_round a b :
  is_double a -> is_double b -> is_finite a = true -> is_finite b = true ->
  let D := ival a + ival b in
  (D = 0 /\ exists s, add a b = S754_zero s) \/
  (D <> 0 /\ add a b = round_at (-1074) (D <? 0) (Z.abs D)).
Proof.
  intros Va Vb Fa Fb D. unfold is_double in *.
  destruct a as [sa| | |sa ma ea], b as [sb| | |sb mb eb]; try done.
  - left. split; [done|]. destruct sa, sb; simpl; eauto.
  - right. simpl in Vb. destruct (ival_sign sb mb eb Vb) as (H1 & H2 & H3).
    subst D. change (ival (S754_zero sa)) with 0. rewrite Z.add_0_l. split; [done|].
    rewrite H1, H3. rewrite round_at_canonical by done. done.
  - right. simpl in Va. destruct (ival_sign sa ma ea Va) as (H1 & H2 & H3).
    subst D. change (ival (S754_zero sb)) with 0. rewrite Z.add_0_r. split; [done|].
    rewrite H1, H3. rewrite round_at_canonical by done. done.
  - simpl in Va, Vb.
    destruct (bounded_inv ma ea Va) as (Hea & _).
    destruct (bounded_inv mb eb Vb) as (Heb & _).
    unfold add, SFadd. set (ez := Z.min ea eb).
    rewrite !shl_align_fst by lia.
    rewrite binary_normalize_round by lia.
    set (Dz := cond_Zopp sa (Z.pos ma * 2 ^ (ea - ez)) + cond_Zopp sb (Z.pos mb * 2 ^ (eb - ez))).
    assert (HD : D = Dz * 2 ^ (ez + 1074)).
    { subst D Dz. unfold ival.
      replace (ea + 1074) with ((ea - ez) + (ez + 1074)) by lia.
      replace (eb + 1074) with ((eb - ez) + (ez + 1074)) by lia.
      rewrite (pow2_split (ea - ez)), (pow2_split (eb - ez)) by lia.
      unfold cond_Zopp. destruct sa, sb; lia. }
    pose proof (pow2_pos (ez + 1074) ltac:(lia)) as Hp.
    destruct (Z.eqb_spec Dz 0) as [Hz|Hnz].
    + left. split; [nia|eauto].
    + right. split; [nia|]. rewrite <- HD. f_equal.
      destruct (Z.ltb_spec Dz 0), (Z.ltb_spec D 0); try done; nia.
Qed.

Lemma nonneg_ival a : is_double a -> is_nonneg a = true -> 0 <= ival a.
Proof.
  unfold is_double. intros Va Na. destruct a as [[|]|[|]| |[|] m e]; try done.
  simpl in Va. destruct (bounded_inv m e Va) as (He & _).
  pose proof (ival_finite_pos m e ltac:(lia)). unfold ival, cond_Zopp. lia.
Qed.

Lemma nonneg_ival_zero a :
  is_finite a = true -> is_double a -> is_nonneg a = true -> ival a = 0 -> a = zero.
Proof.
  unfold is_double. intros Fa Va Na Hz. destruct a as [[|]|[|]| |[|] m e]; try done.
  simpl in Va. destruct (bounded_inv m e Va) as (He & _).
  pose proof (ival_finite_pos m e ltac:(lia)). unfold ival, cond_Zopp in Hz. lia.
Qed.

Lemma le_zero_any s c : is_nonneg c = true -> le (S754_zero s) c = true.
Proof. destruct c as [[|]|[|]| |[|] m e]; done. Qed.

Lemma le_infinity_eq c : le (S754_infinity false) c = true -> c = S754_infinity false.
Proof. destruct c as [[|]|[|]| |[|] m e]; done. Qed.

Lemma le_refl_nonneg a : is_double a -> is_nonneg a = true -> le a a = true.
Proof.
  unfold is_double. intros Va Na. destruct a as [[|]|[|]| |[|] m e]; try done.
  simpl in Va. unfold le, SFleb. rewrite SFcompare_finite by done.
  rewrite Z.compare_refl. done.
Qed.

Lemma le_trans a b c :
  is_double a -> is_double b -> is_double c ->
  le a b = true -> le b c = true -> le a c = true.
Proof.
  intros Va Vb Vc Hab Hbc.
  destruct (is_finite a && is_finite b && is_finite c) eqn:F.
  - apply andb_prop in F as [F Fc]. apply andb_prop in F as [Fa Fb].
    unfold le, SFleb in *. rewrite SFcompare_ival in * by done.
    destruct (Z.compare_spec (ival a) (ival b)); try done;
      destruct (Z.compare_spec (ival b) (ival c)); try done;
      destruct (Z.compare_spec (ival a) (ival c)); try done; lia.
  - destruct_double a; destruct_double b; try done; destruct_double c; done.
Qed.

(** Addition is non-decreasing in both arguments on the non-negative
    doubles. *)
Theorem add_mono a a' b b' :
  is_double a -> is_double a' -> is_double b -> is_double b' ->
  is_nonneg a = true -> is_nonneg a' = true ->
  is_nonneg b = true -> is_nonneg b' = true ->
  le a a' = true -> le b b' = true -> le (add a b) (add a' b') = true.
Proof.
  intros Va Va' Vb Vb' Na Na' Nb Nb' Hla Hlb.
  destruct (add_nonneg a b Va Vb Na Nb) as [Ns _].
  destruct (add_nonneg a' b' Va' Vb' Na' Nb') as [Ns' _].
  destruct (is_finite a' && is_finite b') eqn:F'.
  - apply andb_prop in F' as [Fa' Fb'].
    assert (Fa : is_finite a = true).
    { destruct a as [[|]|[|]| |[|] ? ?]; try done.
      apply le_infinity_eq in Hla. subst a'. done. }
    assert (Fb : is_finite b = true).
    { destruct b as [[|]|[|]| |[|] ? ?]; try done.
      apply le_infinity_eq in Hlb. subst b'. done. }
    unfold le, SFleb in Hla, Hlb. rewrite SFcompare_ival in Hla, Hlb by done.
    assert (Hia : ival a <= ival a')
      by (destruct (Z.compare_spec (ival a) (ival a')); try done; lia).
    assert (Hib : ival b <= ival b')
      by (destruct (Z.compare_spec (ival b) (ival b')); try done; lia).
    pose proof (nonneg_ival a Va Na). pose proof (nonneg_ival b Vb Nb).
    destruct (add_round a b Va Vb Fa Fb) as [[Hz [s Hs]]|[Hn Hs]]; rewrite Hs.
    + apply le_zero_any. done.
    + destruct (add_round a' b' Va' Vb' Fa' Fb') as [[Hz' _]|[Hn' Hs']]; [lia|].
      rewrite Hs'.
      replace (ival a + ival b <? 0) with false by (symmetry; apply Z.ltb_ge; lia).
      replace (ival a' + ival b' <? 0) with false by (symmetry; apply Z.ltb_ge; lia).
      apply round_at_mono; lia.
  - assert (Hinf : add a' b' = S754_infinity false).
    { destruct a' as [[|]|[|]| |[|] ? ?]; try done;
        destruct b' as [[|]|[|]| |[|] ? ?]; done. }
    rewrite Hinf. apply le_pos_infinity. done.
Qed.

(** A sum of non-negative doubles is at least each of its terms. *)
Lemma add_ge_l a b :
  is_double a -> is_double b -> is_nonneg a = true -> is_nonneg b = true ->
  le a (add a b) = true.
Proof.
  intros Va Vb Na Nb. rewrite <- (add_zero_r a Na) at 1.
  apply add_mono; try done.
  - apply le_refl_nonneg; done.
  - apply le_zero_any. done.
Qed.

Lemma add_ge_r a b :
  is_double a -> is_double b -> is_nonneg a = true -> is_nonneg b = true ->
  le b (add a b) = true.
Proof.
  intros Va Vb Na Nb. rewrite <- (add_zero_l b Nb) at 1.
  apply add_mono; try done.
  - apply le_zero_any. done.
  - apply le_refl_nonneg; done.
Qed.

(** ** Negative doubles and sums of any sign *)

Lemma round_at_opp E N : round_at E true N = SFopp (round_at E false N).
Proof.
  unfold round_at, pack. destruct (rne N _); try done.
  destruct (_ <? _); destruct (_ <=? _); done.
Qed.

Lemma leb_opp a b : SFleb (SFopp a) (SFopp b) = SFleb b a.
Proof.
  unfold SFleb.
  destruct a as [[|]|[|]| |[|] ma ea], b as [[|]|[|]| |[|] mb eb]; try done;
    simpl; rewrite (Z.compare_antisym ea eb);
    destruct (ea ?= eb) eqn:E; simpl; try done.
  - change (Pos.compare_cont Eq ma mb) with (ma ?= mb)%positive.
    change (Pos.compare_cont Eq mb ma) with (mb ?= ma)%positive.
    rewrite (Pos.compare_antisym ma mb). destruct (ma ?= mb)%positive; done.
  - change (Pos.compare_cont Eq ma mb) with (ma ?= mb)%positive.
    change (Pos.compare_cont Eq mb ma) with (mb ?= ma)%positive.
    rewrite (Pos.compare_antisym ma mb). destruct (ma ?= mb)%positive; done.
Qed.

Lemma round_at_mono_neg E N1 N2 :
  0 < N1 <= N2 -> E <= -1074 ->
  SFleb (round_at E true N2) (round_at E true N1) = true.
Proof.
  intros. rewrite !round_at_opp, leb_opp. apply round_at_mono; done.
Qed.

Lemma add_ge_any v w :
  is_double v -> is_double w -> is_finite v = true -> is_nonneg w = true ->
  le v (add v w) = true.
Proof.
  intros Vv Vw Fv Nw.
  destruct (is_finite w) eqn:Fw.
  2:{ destruct_double w; try done. destruct_double v; done. }
  pose proof (nonneg_ival w Vw Nw) as Hw.
  destruct (add_round v w Vv Vw Fv Fw) as [[Hz [s Hs]]|[Hn Hs]]; rewrite Hs.
  - unfold le, SFleb. rewrite SFcompare_ival; try done.
    change (ival (S754_zero s)) with 0.
    destruct (Z.compare_spec (ival v) 0); try done; lia.
  - unfold is_double in Vv.
    destruct v as [sv| | |[|] m e]; try done.
    + change (ival (S754_zero sv)) with 0 in *. rewrite Z.add_0_l in *.
      apply le_zero_any.
      replace (ival w <? 0) with false by (symmetry; apply Z.ltb_ge; lia).
      apply round_at_nonneg; [lia|]. apply fexp_ge_emin.
    + simpl in Vv. destruct (ival_sign true m e Vv) as (H1 & H2 & H3).
      apply Z.ltb_lt in H1.
      destruct (Z.ltb_spec (ival (S754_finite true m e) + ival w) 0) as [Hneg|Hpos].
      * rewrite <- (round_at_canonical true m e Vv) at 1.
        apply round_at_mono_neg; [|lia]. rewrite <- H3. lia.
      * pose proof (round_at_emin_pos (Z.abs (ival (S754_finite true m e) + ival w))
                      ltac:(lia)) as Hp.
        destruct (round_at _ _ _) as [[|]|[|]| |[|] ? ?]; done.
    + simpl in Vv. destruct (ival_sign false m e Vv) as (H1 & H2 & H3).
      apply Z.ltb_ge in H1.
      replace (ival (S754_finite false m e) + ival w <? 0) with false
        by (symmetry; apply Z.ltb_ge; lia).
      rewrite <- (round_at_canonical false m e Vv) at 1.
      apply round_at_mono; [|lia]. rewrite <- H3. lia.
Qed.

(** The product of a positive finite double and a non-negative one. *)
Lemma mul_pos_nonneg k p :
  is_double k -> is_double p -> is_pos k = true -> is_finite k = true ->
  is_nonneg p = true -> is_nonneg (mul k p) = true /\ is_double (mul k p).
Proof.
  unfold is_double. intros Vk Vp Pk Fk Np.
  destruct k as [[|]|[|]| |[|] mk ek]; try done.
  destruct p as [[|]|[|]| |[|] mp ep]; try done.
  simpl in Vk, Vp. rewrite mul_round by done.
  destruct (bounded_inv mk ek Vk) as (Hek & _).
  destruct (bounded_inv mp ep Vp) as (Hep & _).
  pose proof (ival_finite_pos mk ek ltac:(lia)).
  pose proof (ival_finite_pos mp ep ltac:(lia)).
  assert (0 < Z.pos mk * 2 ^ (ek + 1074) * (Z.pos mp * 2 ^ (ep + 1074))) by nia.
  assert (-2148 <= fexp prec emax (Zdigits2 (Z.pos mk * 2 ^ (ek + 1074) * (Z.pos mp * 2 ^ (ep + 1074))) + -2148)).
  { pose proof (fexp_ge_emin (Zdigits2 (Z.pos mk * 2 ^ (ek + 1074) * (Z.pos mp * 2 ^ (ep + 1074))) + -2148)). lia. }
  split.
  - apply round_at_nonneg; done.
  - apply round_at_valid; done.
Qed.

(** ** Integers

    The integers below [2 ^ 53] in magnitude are doubles, and the operations
    on them round the exact integer result. *)

Lemma of_Z_round n : n <> 0 ->
  of_Z n = round_at (-1074) (n <? 0) (Z.abs n * 2 ^ 1074).
Proof.
  intros Hn. unfold of_Z. rewrite binary_normalize_round by lia.
  destruct (Z.eqb_spec n 0); [done|]. f_equal.
  change (0 + 1074) with 1074. pose proof (pow2_pos 1074 ltac:(lia)).
  rewrite Z.abs_mul, (Z.abs_eq (2 ^ 1074)) by lia. reflexivity.
Qed.

Lemma round_at_int s k : 0 < k < 2 ^ 53 ->
  exists m e, round_at (-1074) s (k * 2 ^ 1074) = S754_finite s m e
    /\ bounded prec emax m e = true
    /\ Zpos m * 2 ^ (e + 1074) = k * 2 ^ 1074.
Proof.
  intros Hk.
  pose proof (Zdigits2_bounds k ltac:(lia)) as Hd.
  pose proof (Zdigits2_pos k ltac:(lia)) as Hd0.
  pose proof (Zdigits2_le_53 k ltac:(lia) ltac:(lia)) as Hd53.
  set (d := Zdigits2 k) in *.
  unfold round_at. rewrite Zdigits2_shift by lia. fold d.
  rewrite fexp_eq. replace (Z.max (d + 1074 + -1074 - 53) (-1074)) with (d - 53) by lia.
  replace (d - 53 - -1074) with (d + 1021) by lia.
  assert (Hsplit : k * 2 ^ 1074 = (k * 2 ^ (53 - d)) * 2 ^ (d + 1021)).
  { rewrite <- Z.mul_assoc, <- pow2_split by lia. do 2 f_equal. lia. }
  rewrite Hsplit, rne_exact by lia.
  pose proof (pow2_pos (53 - d) ltac:(lia)) as Hp.
  assert (Hq1 : k * 2 ^ (53 - d) < 2 ^ 53).
  { replace 53 with (d + (53 - d)) at 2 by lia. rewrite pow2_split by lia. nia. }
  assert (Hq2 : 2 ^ 52 <= k * 2 ^ (53 - d)).
  { replace 52 with ((d - 1) + (53 - d)) by lia. rewrite pow2_split by lia. nia. }
  destruct (pack_spec s (k * 2 ^ (53 - d)) (d - 53)) as [[Hz _]|[(_ & Hbig & _)|(_ & _ & m & e & Hm)]];
    try lia.
  - replace (d - 53 + 1074) with (d + 1021) in Hbig by lia.
    rewrite <- Hsplit in Hbig.
    assert (Hlt : k * 2 ^ 1074 < 2 ^ 53 * 2 ^ 1074)
      by (pose proof (pow2_pos 1074 ltac:(lia)); nia).
    rewrite <- pow2_split in Hlt by lia. change (53 + 1074) with 1127 in Hlt.
    pose proof (pow2_lt 1127 2098 ltac:(lia)). lia.
  - exists m, e. destruct Hm as (H1 & H2 & H3). split; [done|]. split; [done|].
    rewrite H3. replace (d - 53 + 1074) with (d + 1021) by lia. reflexivity.
Qed.

(** An integer below [2 ^ 53] in magnitude is a double. *)
Lemma of_Z_exact n : Z.abs n < 2 ^ 53 ->
  is_double (of_Z n) /\ is_finite (of_Z n) = true /\ ival (of_Z n) = n * 2 ^ 1074.
Proof.
  intros Hn. destruct (Z.eq_dec n 0) as [->|Hnz]; [done|].
  rewrite of_Z_round by done.
  destruct (round_at_int (n <? 0) (Z.abs n) ltac:(lia)) as (m & e & -> & Hb & Hv).
  split; [exact Hb|]. split; [done|].
  unfold ival. rewrite Hv. unfold cond_Zopp. destruct (Z.ltb_spec n 0); lia.
Qed.

Lemma of_Z_compare a b : Z.abs a < 2 ^ 53 -> Z.abs b < 2 ^ 53 ->
  SFcompare (of_Z a) (of_Z b) = Some (a ?= b).
Proof.
  intros Ha Hb.
  destruct (of_Z_exact a Ha) as (Va & Fa & Ia).
  destruct (of_Z_exact b Hb) as (Vb & Fb & Ib).
  rewrite SFcompare_ival, Ia, Ib by done. f_equal.
  pose proof (pow2_pos 1074 ltac:(lia)).
  destruct (Z.compare_spec a b); [apply Z.compare_eq_iff|apply Z.compare_lt_iff|apply Z.compare_gt_iff]; nia.
Qed.

Lemma lt_of_Z a b : Z.abs a < 2 ^ 53 -> Z.abs b < 2 ^ 53 ->
  lt (of_Z a) (of_Z b) = (a <? b).
Proof.
  intros Ha Hb. unfold lt, SFltb. rewrite of_Z_compare by done.
  unfold Z.ltb. destruct (a ?= b); done.
Qed.

Lemma le_of_Z a b : Z.abs a < 2 ^ 53 -> Z.abs b < 2 ^ 53 ->
  le (of_Z a) (of_Z b) = (a <=? b).
Proof.
  intros Ha Hb. unfold le, SFleb. rewrite of_Z_compare by done.
  unfold Z.leb. destruct (a ?= b); done.
Qed.

Lemma sub_of_Z a b : Z.abs a < 2 ^ 53 -> Z.abs b < 2 ^ 53 -> a <> b ->
  sub (of_Z a) (of_Z b) = of_Z (a - b).
Proof.
  intros Ha Hb Hab.
  destruct (of_Z_exact a Ha) as (Va & Fa & Ia).
  destruct (of_Z_exact b Hb) as (Vb & Fb & Ib).
  pose proof (pow2_pos 1074 ltac:(lia)) as Hp.
  destruct (sub_round (of_Z a) (of_Z b) Va Vb Fa Fb) as [[Hz _]|[_ Hs]].
  - rewrite Ia, Ib in Hz. nia.
  - rewrite Hs, Ia, Ib, of_Z_round by lia.
    replace (a * 2 ^ 1074 - b * 2 ^ 1074) with ((a - b) * 2 ^ 1074) by lia.
    rewrite Z.abs_mul, (Z.abs_eq (2 ^ 1074)) by lia. f_equal.
    destruct (Z.ltb_spec ((a - b) * 2 ^ 1074) 0), (Z.ltb_spec (a - b) 0); try done; nia.
Qed.

Lemma add_of_Z a b : Z.abs a < 2 ^ 53 -> Z.abs b < 2 ^ 53 -> a + b <> 0 ->
  add (of_Z a) (of_Z b) = of_Z (a + b).
Proof.
  intros Ha Hb Hab.
  destruct (of_Z_exact a Ha) as (Va & Fa & Ia).
  destruct (of_Z_exact b Hb) as (Vb & Fb & Ib).
  pose proof (pow2_pos 1074 ltac:(lia)) as Hp.
  destruct (add_round (of_Z a) (of_Z b) Va Vb Fa Fb) as [[Hz _]|[_ Hs]].
  - rewrite Ia, Ib in Hz. nia.
  - rewrite Hs, Ia, Ib, of_Z_round by lia.
    replace (a * 2 ^ 1074 + b * 2 ^ 1074) with ((a + b) * 2 ^ 1074) by lia.
    rewrite Z.abs_mul, (Z.abs_eq (2 ^ 1074)) by lia. f_equal.
    destruct (Z.ltb_spec ((a + b) * 2 ^ 1074) 0), (Z.ltb_spec (a + b) 0); try done; nia.
Qed.

Lemma mul_of_Z a b : Z.abs a < 2 ^ 53 -> Z.abs b < 2 ^ 53 -> a <> 0 -> b <> 0 ->
  mul (of_Z a) (of_Z b) = of_Z (a * b).
Proof.
  intros Ha Hb Hza Hzb.
  pose proof (pow2_pos 1074 ltac:(lia)) as Hp.
  rewrite (of_Z_round a), (of_Z_round b), (of_Z_round (a * b)) by lia.
  destruct (round_at_int (a <? 0) (Z.abs a) ltac:(lia)) as (ma & ea & -> & Hba & Hva).
  destruct (round_at_int (b <? 0) (Z.abs b) ltac:(lia)) as (mb & eb & -> & Hbb & Hvb).
  rewrite mul_round, Hva, Hvb by done.
  replace (Z.abs a * 2 ^ 1074 * (Z.abs b * 2 ^ 1074))
    with ((Z.abs (a * b) * 2 ^ 1074) * 2 ^ 1074) by (rewrite Z.abs_mul; lia).
  change (-2148) with (-1074 - 1074).
  rewrite round_at_scale; try lia.
  - f_equal. destruct (Z.ltb_spec a 0), (Z.ltb_spec b 0), (Z.ltb_spec (a * b) 0);
      try done; nia.
  - apply fexp_ge_emin.
Qed.

(** Two doubles of opposite values add up to [+0.0]. *)
Lemma add_opposite sa ma ea sb mb eb :
  bounded prec emax ma ea = true -> bounded prec emax mb eb = true ->
  ival (S754_finite sa ma ea) + ival (S754_finite sb mb eb) = 0 ->
  add (S754_finite sa ma ea) (S754_finite sb mb eb) = S754_zero false.
Proof.
  intros Va Vb HD.
  destruct (bounded_inv ma ea Va) as (Hea & _).
  destruct (bounded_inv mb eb Vb) as (Heb & _).
  unfold add, SFadd. set (ez := Z.min ea eb).
  rewrite !shl_align_fst by lia.
  rewrite binary_normalize_round by lia.
  set (Dz := cond_Zopp sa (Z.pos ma * 2 ^ (ea - ez)) + cond_Zopp sb (Z.pos mb * 2 ^ (eb - ez))).
  assert (HDz : ival (S754_finite sa ma ea) + ival (S754_finite sb mb eb)
                = Dz * 2 ^ (ez + 1074)).
  { subst Dz. unfold ival.
    replace (ea + 1074) with ((ea - ez) + (ez + 1074)) by lia.
    replace (eb + 1074) with ((eb - ez) + (ez + 1074)) by lia.
    rewrite (pow2_split (ea - ez)), (pow2_split (eb - ez)) by lia.
    unfold cond_Zopp. destruct sa, sb; lia. }
  pose proof (pow2_pos (ez + 1074) ltac:(lia)) as Hp.
  destruct (Z.eqb_spec Dz 0) as [Hz|Hnz]; [done|]. nia.
Qed.

(** A sum of integers, whatever its sign and also when it vanishes. *)
Lemma add_of_Z_any a b : Z.abs a < 2 ^ 53 -> Z.abs b < 2 ^ 53 ->
  add (of_Z a) (of_Z b) = of_Z (a + b).
Proof.
  intros Ha Hb. destruct (Z.eq_dec (a + b) 0) as [Hz|Hnz]; [|apply add_of_Z; done].
  rewrite Hz. destruct (Z.eq_dec a 0) as [->|Hza].
  - replace b with 0 by lia. done.
  - pose proof (pow2_pos 1074 ltac:(lia)) as Hp.
    rewrite (of_Z_round a), (of_Z_round b) by lia.
    destruct (round_at_int (a <? 0) (Z.abs a) ltac:(lia)) as (ma & ea & -> & Hba & Hva).
    destruct (round_at_int (b <? 0) (Z.abs b) ltac:(lia)) as (mb & eb & -> & Hbb & Hvb).
    rewrite add_opposite; [done|done|done|].
    unfold ival. rewrite Hva, Hvb. unfold cond_Zopp.
    destruct (Z.ltb_spec a 0), (Z.ltb_spec b 0); lia.
Qed.

(** A product of integers, also when it vanishes: the zero may then be the
    negative one. *)
Lemma mul_of_Z_any a b : Z.abs a < 2 ^ 53 -> Z.abs b < 2 ^ 53 ->
  mul (of_Z a) (of_Z b) = of_Z (a * b)
  \/ (a * b = 0 /\ mul (of_Z a) (of_Z b) = S754_zero true).
Proof.
  intros Ha Hb.
  destruct (Z.eq_dec a 0) as [->|Hza]; [|destruct (Z.eq_dec b 0) as [->|Hzb]].
  - destruct (of_Z_exact b Hb) as (_ & Fb & _).
    change (of_Z 0) with (S754_zero false). rewrite Z.mul_0_l.
    destruct (of_Z b) as [[|]|[|]| |[|] ? ?]; try done; auto.
  - destruct (of_Z_exact a Ha) as (_ & Fa & _).
    change (of_Z 0) with (S754_zero false). rewrite Z.mul_0_r.
    destruct (of_Z a) as [[|]|[|]| |[|] ? ?]; try done; auto.
  - left. apply mul_of_Z; done.
Qed.

(** Adding a zero of either sign to an integer. *)
Lemma add_of_Z_zero a s : Z.abs a < 2 ^ 53 -> add (of_Z a) (S754_zero s) = of_Z a.
Proof.
  intros Ha. destruct (Z.eq_dec a 0) as [->|Hza]; [destruct s; done|].
  rewrite (of_Z_round a) by lia.
  destruct (round_at_int (a <? 0) (Z.abs a) ltac:(lia)) as (ma & ea & -> & _).
  done.
Qed.

End DoubleFacts.


(** * The loops *)

Lemma for_loop_from_shift {St : Type} (f g : nat -> St -> outcome St) n :
  (forall i s, f (S i) s = g i s) ->
  forall i s, for_loop_from (S i) n f s = for_loop_from i n g s.
Proof.
  intros Hfg. induction n as [|n IH]; intros i s; simpl; [done|].
  rewrite Hfg. destruct (g i s); simpl; [apply IH|done|done].
Qed.

Lemma read_vector_length h p n vs : read_vector h p n = Some vs -> length vs = n.
Proof.
  revert p vs. induction n as [|n IH]; intros p vs; simpl.
  - intros [= <-]. done.
  - destruct (h !! p) as [v|]; simpl; [|done].
    destruct (read_vector h (S p) n) as [vs'|] eqn:E; simpl; [|done].
    intros [= <-]. simpl. f_equal. eapply IH. done.
Qed.

Lemma read_vector_cons h p v vs :
  read_vector h p (S (length vs)) = Some (v :: vs) ->
  h !! p = Some v /\ read_vector h (S p) (length vs) = Some vs.
Proof.
  simpl. destruct (h !! p) as [v'|]; simpl; [|done].
  destruct (read_vector h (S p) (length vs)) as [vs'|]; simpl; [|done].
  intros [= -> ->]. done.
Qed.

Lemma read_vector_ext h h' p n :
  (forall a, within p n a -> h' !! a = h !! a) ->
  read_vector h' p n = read_vector h p n.
Proof.
  revert p. induction n as [|n IH]; intros p Heq; simpl; [done|].
  rewrite Heq by (unfold within; lia).
  rewrite IH; [done|]. intros a Ha. apply Heq. unfold within in *. lia.
Qed.

Lemma read_vector_lookup h p n vs i v :
  read_vector h p n = Some vs -> vs !! i = Some v -> h !! (p + i)%nat = Some v.
Proof.
  revert p vs i. induction n as [|n IH]; intros p vs i; simpl.
  - intros [= <-]. done.
  - destruct (h !! p) as [v'|] eqn:Hp; simpl; [|done].
    destruct (read_vector h (S p) n) as [vs'|] eqn:E; simpl; [|done].
    intros [= <-]. destruct i as [|i]; simpl.
    + intros [= <-]. rewrite Nat.add_0_r. done.
    + intros Hi. replace (p + S i)%nat with (S p + i)%nat by lia. eapply IH; done.
Qed.

(** ** The first loop *)

Lemma gt_sub_pos a b :
  Double.is_double a -> Double.is_double b ->
  Double.gt (a - b)%D Double.zero = true ->
  Double.is_nonneg ((a - b) * (a - b))%D = true /\ Double.is_double ((a - b) * (a - b))%D.
Proof.
  intros Va Vb Hgt. apply DoubleFacts.square_nonneg.
  - apply DoubleFacts.sub_valid; done.
  - apply DoubleFacts.gt_zero_pos. done.
Qed.

Lemma contribution_nonneg xi lb ub :
  Double.is_double xi -> Double.is_double lb -> Double.is_double ub ->
  Double.is_nonneg (contribution xi lb ub) = true /\ Double.is_double (contribution xi lb ub).
Proof.
  intros Vx Vl Vu. unfold contribution.
  destruct (Double.gt (xi - ub)%D Double.zero) eqn:H1; [apply gt_sub_pos; done|].
  destruct (Double.gt (lb - xi)%D Double.zero) eqn:H2; [apply gt_sub_pos; done|].
  done.
Qed.

(** Skipping a coordinate inside the bounds is adding [0.0]. *)
Lemma accumulate_contribution penalty xi lb ub :
  Double.is_nonneg penalty = true ->
  _puv_accumulate penalty xi lb ub = (penalty + contribution xi lb ub)%D.
Proof.
  intros Hp. unfold _puv_accumulate, contribution.
  destruct (Double.gt (xi - ub)%D Double.zero); [done|].
  destruct (Double.gt (lb - xi)%D Double.zero); [done|].
  symmetry. apply DoubleFacts.add_zero_r. done.
Qed.

Lemma doubles_cons v l :
  doubles (v :: l) = true <-> Double.is_double v /\ doubles l = true.
Proof. unfold doubles, Double.is_double. simpl. rewrite andb_true_iff. done. Qed.

Lemma penalty_body_run h x lbs ubs i penalty xi lb ub :
  h !! (x + i)%nat = Some xi -> lbs !! i = Some lb -> ubs !! i = Some ub ->
  _puv_penalty_body h x lbs ubs i penalty =
  if Double.lt lb ub then Done (_puv_accumulate penalty xi lb ub) else AssertFail.
Proof.
  intros Hx Hl Hu. unfold _puv_penalty_body, load. rewrite Hx, Hl, Hu. simpl.
  destruct (Double.lt lb ub); done.
Qed.

Lemma penalty_loop_from h xs : forall lbs ubs x acc,
  read_vector h x (length xs) = Some xs ->
  length lbs = length xs ->
  bounds_ordered lbs ubs = true ->
  doubles xs = true -> doubles lbs = true -> doubles ubs = true ->
  Double.is_nonneg acc = true -> Double.is_double acc ->
  let total := fold_left Double.add (contributions xs lbs ubs) acc in
  for_loop_from 0 (length xs) (_puv_penalty_body h x lbs ubs) acc = Done total
  /\ Double.is_nonneg total = true /\ Double.is_double total.
Proof.
  induction xs as [|xi xs IH]; intros lbs ubs x acc Hx Hlen Hord Vx Vl Vu Nacc Vacc.
  - simpl. done.
  - destruct lbs as [|lb lbs]; [done|]. destruct ubs as [|ub ubs]; [done|].
    simpl in Hord. apply andb_prop in Hord as [Hlt Hord].
    apply doubles_cons in Vx as [Vxi Vx]. apply doubles_cons in Vl as [Vlb Vl].
    apply doubles_cons in Vu as [Vub Vu].
    apply read_vector_cons in Hx as [Hxi Hx].
    change (length (xi :: xs)) with (S (length xs)).
    cbn [for_loop_from contributions fold_left].
    rewrite (penalty_body_run h x _ _ 0 acc xi lb ub)
      by (rewrite ?Nat.add_0_r; done).
    rewrite Hlt. cbn [mbind outcome_bind].
    rewrite accumulate_contribution by done.
    rewrite (for_loop_from_shift _ (_puv_penalty_body h (S x) lbs ubs)).
    + destruct (contribution_nonneg xi lb ub Vxi Vlb Vub) as [Nc Vc].
      destruct (DoubleFacts.add_nonneg acc _ Vacc Vc Nacc Nc) as [Ns Vs].
      apply IH; try done. simpl in Hlen. lia.
    + intros i s. unfold _puv_penalty_body, load.
      replace (x + S i)%nat with (S x + i)%nat by lia. done.
Qed.

(** On a well-formed problem and an allocated [x], the first loop ends, and
    its result is the sum of the contributions. *)
Lemma penalty_loop_correct h x xs lbs ubs :
  read_vector h x (length xs) = Some xs ->
  length lbs = length xs ->
  bounds_ordered lbs ubs = true ->
  doubles xs = true -> doubles lbs = true -> doubles ubs = true ->
  _puv_penalty h x lbs ubs (length xs) = Done (penalty_sum xs lbs ubs)
  /\ Double.is_nonneg (penalty_sum xs lbs ubs) = true
  /\ Double.is_double (penalty_sum xs lbs ubs).
Proof.
  intros. unfold _puv_penalty, for_loop, penalty_sum.
  apply penalty_loop_from; done.
Qed.

(** ** The second loop *)

Lemma add_body_run y k penalty i h v :
  h !! (y + i)%nat = Some v ->
  _puv_add_body y k penalty i h = Done (<[(y + i)%nat := (v + k * penalty)%D]> h).
Proof. intros Hv. unfold _puv_add_body, store, load. rewrite Hv. done. Qed.

Lemma add_loop_from k penalty ys : forall y h,
  read_vector h y (length ys) = Some ys ->
  exists h',
    for_loop_from 0 (length ys) (_puv_add_body y k penalty) h = Done h'
    /\ read_vector h' y (length ys) = Some ((fun v => (v + k * penalty)%D) <$> ys)
    /\ same_outside y (length ys) h h'.
Proof.
  induction ys as [|v ys IH]; intros y h Hy.
  - exists h. simpl. split; [done|]. split; [done|]. intros a _. done.
  - apply read_vector_cons in Hy as [Hv Hy].
    change (length (v :: ys)) with (S (length ys)).
    cbn [for_loop_from].
    rewrite (add_body_run y k penalty 0 h v) by (rewrite Nat.add_0_r; done).
    rewrite Nat.add_0_r. cbn [mbind outcome_bind].
    set (h0 := <[y := (v + k * penalty)%D]> h).
    assert (Hy0 : read_vector h0 (S y) (length ys) = Some ys).
    { rewrite <- Hy. apply read_vector_ext. intros a Ha. unfold within in Ha.
      subst h0. rewrite lookup_insert_ne by lia. done. }
    destruct (IH (S y) h0 Hy0) as (h' & Hrun & Hread & Hout).
    exists h'. split; [|split].
    + rewrite (for_loop_from_shift _ (_puv_add_body (S y) k penalty)); [done|].
      intros i s. unfold _puv_add_body, store, load.
      replace (y + S i)%nat with (S y + i)%nat by lia. done.
    + simpl. rewrite Hout by (unfold within; lia).
      subst h0. rewrite lookup_insert_eq. simpl. rewrite Hread. done.
    + intros a Ha. unfold within in Ha. rewrite Hout by (unfold within; lia).
      subst h0. rewrite lookup_insert_ne by lia. done.
Qed.

(** On an allocated [y], the second loop ends; it adds the same number to
    each of the objective values and touches nothing else. *)
Lemma add_loop_correct k penalty y ys h :
  read_vector h y (length ys) = Some ys ->
  exists h',
    for_loop (length ys) (_puv_add_body y k penalty) h = Done h'
    /\ read_vector h' y (length ys) = Some ((fun v => (v + k * penalty)%D) <$> ys)
    /\ same_outside y (length ys) h h'.
Proof. apply add_loop_from. Qed.

(** ** The evaluation routine of a transformed problem *)

Lemma evaluate_transformed inner k self x y h :
  penalize_uninteresting_values (Some inner) k = Done self ->
  coco_evaluate_function self x y h =
  (penalty ← _puv_penalty h x (smallest_values_of_interest inner)
               (largest_values_of_interest inner) (number_of_variables inner);
   h1 ← coco_evaluate_function inner x y h;
   for_loop (number_of_objectives inner) (_puv_add_body y k penalty) h1).
Proof. intros [= <-]. reflexivity. Qed.

Lemma well_formed_inv p :
  well_formed p = true ->
  length (smallest_values_of_interest p) = number_of_variables p
  /\ bounds_ordered (smallest_values_of_interest p) (largest_values_of_interest p) = true
  /\ doubles (smallest_values_of_interest p) = true
  /\ doubles (largest_values_of_interest p) = true.
Proof.
  unfold well_formed. rewrite !andb_true_iff, Nat.eqb_eq. tauto.
Qed.

(** The call of a transformed problem, when the inner evaluation returns and
    [y] is allocated. *)
Lemma evaluate_returns inner k self x y h xs h1 ys :
  penalize_uninteresting_values (Some inner) k = Done self ->
  well_formed inner = true ->
  read_vector h x (number_of_variables inner) = Some xs ->
  doubles xs = true ->
  coco_evaluate_function inner x y h = Done h1 ->
  read_vector h1 y (number_of_objectives inner) = Some ys ->
  let penalty := penalty_sum xs (smallest_values_of_interest inner)
                   (largest_values_of_interest inner) in
  Double.is_nonneg penalty = true /\ Double.is_double penalty /\
  exists h2,
    coco_evaluate_function self x y h = Done h2
    /\ read_vector h2 y (number_of_objectives inner)
       = Some ((fun v => (v + k * penalty)%D) <$> ys)
    /\ same_outside y (number_of_objectives inner) h1 h2.
Proof.
  intros Hself Hwf Hx Vx Hinner Hy penalty.
  apply well_formed_inv in Hwf as (Hlen & Hord & Vl & Vu).
  pose proof (read_vector_length _ _ _ _ Hx) as Hn.
  pose proof (read_vector_length _ _ _ _ Hy) as Hm.
  rewrite <- Hn in Hx, Hlen.
  destruct (penalty_loop_correct h x xs _ _ Hx Hlen Hord Vx Vl Vu) as (Hp & Np & Vp).
  split; [done|]. split; [done|].
  rewrite <- Hm in Hy.
  destruct (add_loop_correct k penalty y ys h1 Hy) as (h2 & Hrun & Hread & Hout).
  exists h2. rewrite <- Hm. split; [|done].
  rewrite (evaluate_transformed inner k self x y h Hself).
  rewrite <- Hn, Hp. cbn [mbind outcome_bind]. rewrite Hinner. cbn [mbind outcome_bind].
  rewrite <- Hm. done.
Qed.

(** ** The order of doubles *)

Lemma lt_le a b : Double.lt a b = true -> Double.le a b = true.
Proof.
  unfold Double.lt, Double.le, SFltb, SFleb. destruct (SFcompare a b) as [[| |]|]; done.
Qed.

(** [a - b > 0.0] only if [b < a]. *)
Lemma gt_sub_lt a b :
  Double.is_double a -> Double.is_double b ->
  Double.gt (a - b)%D Double.zero = true -> Double.lt b a = true.
Proof.
  intros Va Vb Hgt.
  destruct (Double.is_finite a && Double.is_finite b) eqn:F.
  - apply andb_prop in F as [Fa Fb].
    unfold Double.lt, SFltb. rewrite DoubleFacts.SFcompare_ival by done.
    destruct (DoubleFacts.sub_round a b Va Vb Fa Fb) as [[_ [s Hs]]|[Hn Hs]];
      rewrite Hs in Hgt; [done|].
    destruct (Z.ltb_spec (Double.ival a - Double.ival b) 0) as [Hneg|Hpos].
    + unfold Double.gt in Hgt.
      rewrite DoubleFacts.round_at_neg_not_pos in Hgt; [done|lia|apply DoubleFacts.fexp_ge_emin].
    + destruct (Z.compare_spec (Double.ival b) (Double.ival a)); try done; lia.
  - destruct a as [[|]|[|]| |[|] ? ?]; destruct b as [[|]|[|]| |[|] ? ?]; done.
Qed.

(** Under [lower < upper] the two tests of a coordinate cannot both
    succeed. *)
Lemma branches_exclusive xi lb ub :
  Double.is_double xi -> Double.is_double lb -> Double.is_double ub ->
  Double.lt lb ub = true ->
  Double.gt (xi - ub)%D Double.zero = true ->
  Double.gt (lb - xi)%D Double.zero = false.
Proof.
  intros Vx Vl Vu Hlu Hgt.
  apply DoubleFacts.sub_le_not_pos; try done.
  apply lt_le. apply (DoubleFacts.lt_le_trans lb ub xi); try done.
  apply lt_le. apply gt_sub_lt; done.
Qed.

Lemma doubles_lookup l i v : doubles l = true -> l !! i = Some v -> Double.is_double v.
Proof.
  revert i. induction l as [|w l IH]; intros i Hl Hi; [done|].
  apply doubles_cons in Hl as [Hw Hl]. destruct i as [|i]; simpl in Hi.
  - injection Hi as <-. done.
  - eapply IH; done.
Qed.

Lemma bounds_ordered_lookup lbs ubs i lb ub :
  bounds_ordered lbs ubs = true -> lbs !! i = Some lb -> ubs !! i = Some ub ->
  Double.lt lb ub = true.
Proof.
  revert ubs i. induction lbs as [|l lbs IH]; intros [|u ubs] i Hord Hl Hu; try done.
  simpl in Hord. apply andb_prop in Hord as [Hlu Hord].
  destruct i as [|i]; simpl in Hl, Hu.
  - injection Hl as <-. injection Hu as <-. done.
  - eapply IH; done.
Qed.

(** ** Inside the bounds *)

Lemma contribution_in_bounds xi lb ub :
  Double.is_double xi -> Double.is_double lb -> Double.is_double ub ->
  Double.le lb xi = true -> Double.le xi ub = true ->
  contribution xi lb ub = Double.zero.
Proof.
  intros Vx Vl Vu Hl Hu. unfold contribution.
  rewrite (DoubleFacts.sub_le_not_pos xi ub), (DoubleFacts.sub_le_not_pos lb xi); done.
Qed.

Lemma fold_in_bounds xs : forall lbs ubs acc,
  in_bounds xs lbs ubs = true ->
  doubles xs = true -> doubles lbs = true -> doubles ubs = true ->
  Double.is_nonneg acc = true ->
  fold_left Double.add (contributions xs lbs ubs) acc = acc.
Proof.
  induction xs as [|xi xs IH]; intros [|lb lbs] [|ub ubs] acc Hin Vx Vl Vu Nacc; try done.
  simpl in Hin. apply andb_prop in Hin as [Hin Hrest]. apply andb_prop in Hin as [Hl Hu].
  apply doubles_cons in Vx as [Vxi Vx]. apply doubles_cons in Vl as [Vlb Vl].
  apply doubles_cons in Vu as [Vub Vu].
  cbn [contributions fold_left].
  rewrite contribution_in_bounds, DoubleFacts.add_zero_r by done.
  apply IH; done.
Qed.

Lemma penalty_sum_in_bounds xs lbs ubs :
  in_bounds xs lbs ubs = true ->
  doubles xs = true -> doubles lbs = true -> doubles ubs = true ->
  penalty_sum xs lbs ubs = Double.zero.
Proof. intros. apply fold_in_bounds; done. Qed.

(** Adding [factor * 0.0], for a finite factor. *)
Lemma add_mul_zero k v :
  Double.is_finite k = true -> equal_up_to_zero_sign v (v + k * Double.zero)%D.
Proof.
  intros Hk. unfold equal_up_to_zero_sign.
  destruct k as [[|]|[|]| |[|] ? ?]; try done;
    destruct v as [[|]|[|]| |[|] ? ?]; simpl; auto.
Qed.

Lemma equal_up_to_zero_sign_numerically v v' :
  equal_up_to_zero_sign v v' -> numerically_equal v v'.
Proof. intros [->|[-> ->]]; [left|right]; done. Qed.

(** ** What a call writes *)

Lemma store_writes h p i v h' :
  store h p i v = Done h' -> forall a, a <> (p + i)%nat -> h' !! a = h !! a.
Proof.
  unfold store, load. destruct (h !! (p + i)%nat); simpl; [|done].
  intros [= <-] a Ha. rewrite lookup_insert_ne by done. done.
Qed.

Lemma add_loop_writes k penalty y n : forall i h h',
  for_loop_from i n (_puv_add_body y k penalty) h = Done h' ->
  forall a, ~ (y + i <= a < y + i + n)%nat -> h' !! a = h !! a.
Proof.
  induction n as [|n IH]; intros i h h' Hrun a Ha; simpl in Hrun.
  - injection Hrun as <-. done.
  - destruct (h !! (y + i)%nat) as [v|] eqn:Hv.
    + rewrite (add_body_run y k penalty i h v Hv) in Hrun. cbn [mbind outcome_bind] in Hrun.
      rewrite (IH _ _ _ Hrun) by lia.
      rewrite lookup_insert_ne by lia. done.
    + assert (Hf : _puv_add_body y k penalty i h = Fault)
        by (unfold _puv_add_body, store, load; rewrite Hv; done).
      rewrite Hf in Hrun. done.
Qed.

(** ** The assertions *)


(** ** One coordinate outside the bounds *)



Lemma contribution_above xi lb ub :
  Double.is_double xi -> Double.is_double ub ->
  Double.lt ub xi = true ->
  contribution xi lb ub = ((xi - ub) * (xi - ub))%D.
Proof.
  intros Vx Vu Hlt. unfold contribution.
  rewrite (DoubleFacts.pos_gt_zero (xi - ub)%D); [done|].
  apply DoubleFacts.sub_gt_pos; done.
Qed.

Lemma contribution_below xi lb ub :
  Double.is_double xi -> Double.is_double lb -> Double.is_double ub ->
  Double.lt lb ub = true -> Double.lt xi lb = true ->
  contribution xi lb ub = ((lb - xi) * (lb - xi))%D.
Proof.
  intros Vx Vl Vu Hlu Hlt. unfold contribution.
  rewrite (DoubleFacts.sub_le_not_pos xi ub); try done.
  - rewrite (DoubleFacts.pos_gt_zero (lb - xi)%D); [done|].
    apply DoubleFacts.sub_gt_pos; done.
  - apply lt_le. apply (DoubleFacts.le_lt_trans xi lb ub); try done. apply lt_le. done.
Qed.

Lemma le_not_gt a b :
  Double.is_double a -> Double.is_double b ->
  Double.le a b = true -> Double.lt b a = false.
Proof.
  intros Va Vb Hle.
  destruct (Double.is_finite a && Double.is_finite b) eqn:F.
  - apply andb_prop in F as [Fa Fb].
    unfold Double.le, Double.lt, SFleb, SFltb in *.
    rewrite DoubleFacts.SFcompare_ival in * by done.
    destruct (Z.compare_spec (Double.ival a) (Double.ival b)); try done;
      destruct (Z.compare_spec (Double.ival b) (Double.ival a)); try done; lia.
  - destruct a as [[|]|[|]| |[|] ? ?]; destruct b as [[|]|[|]| |[|] ? ?]; done.
Qed.

Lemma excess_above xi lb ub :
  Double.lt ub xi = true -> excess xi lb ub = (xi - ub)%D.
Proof. intros H. unfold excess. rewrite H. done. Qed.

Lemma excess_below xi lb ub :
  Double.is_double xi -> Double.is_double lb -> Double.is_double ub ->
  Double.lt lb ub = true -> Double.lt xi lb = true -> excess xi lb ub = (lb - xi)%D.
Proof.
  intros Vx Vl Vu Hlu Hlt. unfold excess.
  rewrite (le_not_gt xi ub); try done.
  apply lt_le. apply (DoubleFacts.le_lt_trans xi lb ub); try done. apply lt_le. done.
Qed.

(** ** The second scenario of the specification *)

(** With the bounds [[-1, -1]] and [[1, 1]] and the factor [2.0], the point
    [x = [-3, 0]] is below the lower bound on coordinate 0 only:
    [c1 = -3 - 1 = -4] is not positive, [c2 = -1 - (-3) = 2] is, the
    penalty is [4] and the term added is [8.0]. *)
Example scenario_below_lower_bound :
  (Double.of_Z (-3) - Double.of_Z 1)%D = Double.of_Z (-4)
  /\ Double.gt (Double.of_Z (-4)) Double.zero = false
  /\ (Double.of_Z (-1) - Double.of_Z (-3))%D = Double.of_Z 2
  /\ _puv_penalty (Scenario.heap_of (Double.of_Z (-3)) (Double.of_Z 0) Double.zero)
       Scenario.x Scenario.lower Scenario.upper 2 = Done (Double.of_Z 4)
  /\ (Double.of_Z 2 * Double.of_Z 4)%D = Double.of_Z 8
  /\ Scenario.run (Double.of_Z 2) (Double.of_Z 5) (Double.of_Z (-3)) (Double.of_Z 0)
     = Done (Some (Double.of_Z 13)).
Proof. repeat split; vm_compute; reflexivity. Qed.

(** * The claims of the specification *)

(** C1: for every input vector [x] of [number_of_variables] doubles, the
    evaluation of the transformed problem returns, for every objective index
    [j], [y[j] = inner.evaluate(x)[j] + factor * penalty], where [penalty] is
    the sum over the coordinates of [c1 * c1] if [c1 = x[i] - upper[i] > 0],
    else of [c2 * c2] if [c2 = lower[i] - x[i] > 0], else of [0]; at most one
    of the two tests succeeds on a coordinate, and the same number
    [factor * penalty] is added to every objective. *)
Theorem C1_evaluate_adds_scaled_penalty inner k self x y h xs h1 ys :
  penalize_uninteresting_values (Some inner) k = Done self ->
  well_formed inner = true ->
  read_vector h x (number_of_variables inner) = Some xs ->
  doubles xs = true ->
  coco_evaluate_function inner x y h = Done h1 ->
  read_vector h1 y (number_of_objectives inner) = Some ys ->
  _puv_penalty h x (smallest_values_of_interest self) (largest_values_of_interest self)
    (number_of_variables self)
  = Done (penalty_sum xs (smallest_values_of_interest inner)
            (largest_values_of_interest inner))
  /\ (exists h2,
        coco_evaluate_function self x y h = Done h2 /\
        forall j v, ys !! j = Some v ->
          h2 !! (y + j)%nat
          = Some (v + k * penalty_sum xs (smallest_values_of_interest inner)
                            (largest_values_of_interest inner))%D)
  /\ (forall i xi lb ub,
        xs !! i = Some xi ->
        smallest_values_of_interest inner !! i = Some lb ->
        largest_values_of_interest inner !! i = Some ub ->
        ~ (Double.gt (xi - ub)%D Double.zero = true
           /\ Double.gt (lb - xi)%D Double.zero = true)).
Proof.
  intros Hself Hwf Hx Vx Hinner Hy. split; [|split].
  - apply well_formed_inv in Hwf as (Hlen & Hord & Vl & Vu).
    injection Hself as <-. simpl.
    pose proof (read_vector_length _ _ _ _ Hx) as Hn. rewrite <- Hn in Hx, Hlen |- *.
    apply penalty_loop_correct; done.
  - destruct (evaluate_returns inner k self x y h xs h1 ys Hself Hwf Hx Vx Hinner Hy)
      as (_ & _ & h2 & Hrun & Hread & _).
    exists h2. split; [done|]. intros j v Hj.
    eapply read_vector_lookup; [exact Hread|].
    rewrite list_lookup_fmap, Hj. done.
  - intros i xi lb ub Hxi Hlb Hub [H1 H2].
    apply well_formed_inv in Hwf as (_ & Hord & Vl & Vu).
    rewrite (branches_exclusive xi lb ub) in H2; try done.
    + exact (doubles_lookup xs i xi Vx Hxi).
    + exact (doubles_lookup _ i lb Vl Hlb).
    + exact (doubles_lookup _ i ub Vu Hub).
    + exact (bounds_ordered_lookup _ _ i lb ub Hord Hlb Hub).
Qed.

Lemma C1_witness :
  _puv_penalty (Scenario.heap_of (Double.of_Z 2) (Double.of_Z 0) Double.zero) Scenario.x
    (smallest_values_of_interest (Scenario.transformed (Double.of_Z 2) (Double.of_Z 5)))
    (largest_values_of_interest (Scenario.transformed (Double.of_Z 2) (Double.of_Z 5)))
    (number_of_variables (Scenario.transformed (Double.of_Z 2) (Double.of_Z 5)))
  = Done (penalty_sum [Double.of_Z 2; Double.of_Z 0]
            (smallest_values_of_interest (Scenario.constant_problem (Double.of_Z 5)))
            (largest_values_of_interest (Scenario.constant_problem (Double.of_Z 5))))
  /\ (exists h2,
        coco_evaluate_function (Scenario.transformed (Double.of_Z 2) (Double.of_Z 5))
          Scenario.x Scenario.y
          (Scenario.heap_of (Double.of_Z 2) (Double.of_Z 0) Double.zero) = Done h2 /\
        forall j v, [Double.of_Z 5] !! j = Some v ->
          h2 !! (Scenario.y + j)%nat
          = Some (v + Double.of_Z 2
                      * penalty_sum [Double.of_Z 2; Double.of_Z 0]
                          (smallest_values_of_interest
                             (Scenario.constant_problem (Double.of_Z 5)))
                          (largest_values_of_interest
                             (Scenario.constant_problem (Double.of_Z 5))))%D)
  /\ (forall i xi lb ub,
        [Double.of_Z 2; Double.of_Z 0] !! i = Some xi ->
        smallest_values_of_interest (Scenario.constant_problem (Double.of_Z 5)) !! i
        = Some lb ->
        largest_values_of_interest (Scenario.constant_problem (Double.of_Z 5)) !! i
        = Some ub ->
        ~ (Double.gt (xi - ub)%D Double.zero = true
           /\ Double.gt (lb - xi)%D Double.zero = true)).
Proof.
  apply (C1_evaluate_adds_scaled_penalty
           (Scenario.constant_problem (Double.of_Z 5)) (Double.of_Z 2)
           (Scenario.transformed (Double.of_Z 2) (Double.of_Z 5))
           Scenario.x Scenario.y
           (Scenario.heap_of (Double.of_Z 2) (Double.of_Z 0) Double.zero)
           [Double.of_Z 2; Double.of_Z 0]
           (Scenario.heap_of (Double.of_Z 2) (Double.of_Z 0) (Double.of_Z 5))
           [Double.of_Z 5]);
    reflexivity.
Defined.

(** C2 does not hold as it is stated.  At a point inside the bounds, with
    the factor [2.0], an inner result [-0.0] comes back as [+0.0]; and with
    an infinite factor the inner result [5.0] comes back as a NaN. *)
Lemma C2_counterexample :
  in_bounds [Double.of_Z 0; Double.of_Z 0] Scenario.lower Scenario.upper = true
  /\ Scenario.run (Double.of_Z 2) (S754_zero true) (Double.of_Z 0) (Double.of_Z 0)
     <> Scenario.run_inner (S754_zero true) (Double.of_Z 0) (Double.of_Z 0)
  /\ Scenario.run Double.infinity (Double.of_Z 5) (Double.of_Z 0) (Double.of_Z 0)
     <> Scenario.run_inner (Double.of_Z 5) (Double.of_Z 0) (Double.of_Z 0).
Proof. split; [reflexivity|]. split; vm_compute; discriminate. Qed.

(** C2, amended: for a finite factor and every input [x] whose every
    coordinate satisfies [lower[i] <= x[i] <= upper[i]], the accumulated
    penalty is [0.0] and the evaluation of the transformed problem returns the
    result of the inner problem, each objective value being identical to the
    inner one but for a negative zero, which may come back as the positive
    zero. *)
Theorem C2_in_bounds_transparent inner k self x y h xs h1 ys :
  penalize_uninteresting_values (Some inner) k = Done self ->
  well_formed inner = true ->
  read_vector h x (number_of_variables inner) = Some xs ->
  doubles xs = true ->
  in_bounds xs (smallest_values_of_interest inner) (largest_values_of_interest inner)
  = true ->
  Double.is_finite k = true ->
  coco_evaluate_function inner x y h = Done h1 ->
  read_vector h1 y (number_of_objectives inner) = Some ys ->
  _puv_penalty h x (smallest_values_of_interest self) (largest_values_of_interest self)
    (number_of_variables self) = Done Double.zero
  /\ exists h2,
       coco_evaluate_function self x y h = Done h2 /\
       forall j v, ys !! j = Some v ->
         exists v', h2 !! (y + j)%nat = Some v' /\ equal_up_to_zero_sign v v'.
Proof.
  intros Hself Hwf Hx Vx Hin Hk Hinner Hy.
  destruct (evaluate_returns inner k self x y h xs h1 ys Hself Hwf Hx Vx Hinner Hy)
    as (_ & _ & h2 & Hrun & Hread & _).
  apply well_formed_inv in Hwf as (Hlen & Hord & Vl & Vu).
  pose proof (penalty_sum_in_bounds _ _ _ Hin Vx Vl Vu) as Hzero.
  rewrite Hzero in Hread. split.
  - injection Hself as <-. simpl.
    pose proof (read_vector_length _ _ _ _ Hx) as Hn. rewrite <- Hn in Hx, Hlen |- *.
    destruct (penalty_loop_correct h x xs _ _ Hx Hlen Hord Vx Vl Vu) as (Hp & _).
    rewrite Hp, Hzero. done.
  - exists h2. split; [done|]. intros j v Hj.
    exists (v + k * Double.zero)%D. split.
    + eapply read_vector_lookup; [exact Hread|]. rewrite list_lookup_fmap, Hj. done.
    + apply add_mul_zero. done.
Qed.

Lemma C2_witness :
  _puv_penalty (Scenario.heap_of (Double.of_Z 0) (Double.of_Z 0) Double.zero) Scenario.x
    (smallest_values_of_interest (Scenario.transformed (Double.of_Z 2) (S754_zero true)))
    (largest_values_of_interest (Scenario.transformed (Double.of_Z 2) (S754_zero true)))
    (number_of_variables (Scenario.transformed (Double.of_Z 2) (S754_zero true)))
  = Done Double.zero
  /\ exists h2,
       coco_evaluate_function (Scenario.transformed (Double.of_Z 2) (S754_zero true))
         Scenario.x Scenario.y
         (Scenario.heap_of (Double.of_Z 0) (Double.of_Z 0) Double.zero) = Done h2 /\
       forall j v, [S754_zero true] !! j = Some v ->
         exists v', h2 !! (Scenario.y + j)%nat = Some v' /\ equal_up_to_zero_sign v v'.
Proof.
  apply (C2_in_bounds_transparent
           (Scenario.constant_problem (S754_zero true)) (Double.of_Z 2)
           (Scenario.transformed (Double.of_Z 2) (S754_zero true))
           Scenario.x Scenario.y
           (Scenario.heap_of (Double.of_Z 0) (Double.of_Z 0) Double.zero)
           [Double.of_Z 0; Double.of_Z 0]
           (Scenario.heap_of (Double.of_Z 0) (Double.of_Z 0) (S754_zero true))
           [S754_zero true]).
  - reflexivity.
  - reflexivity.
  - reflexivity.
  - reflexivity.
  - reflexivity.
  - reflexivity.
  - vm_compute. reflexivity.
  - reflexivity.
Defined.

(** C3: the transformed problem has the [number_of_variables], the
    [number_of_objectives], the lower bounds and the upper bounds of the inner
    problem: wrapping changes the evaluation only. *)
Theorem C3_metadata_unchanged inner k self :
  penalize_uninteresting_values (Some inner) k = Done self ->
  number_of_variables self = number_of_variables inner
  /\ number_of_objectives self = number_of_objectives inner
  /\ smallest_values_of_interest self = smallest_values_of_interest inner
  /\ largest_values_of_interest self = largest_values_of_interest inner.
Proof. intros [= <-]. done. Qed.

Lemma C3_witness :
  number_of_variables (Scenario.transformed (Double.of_Z 2) (Double.of_Z 5))
  = number_of_variables (Scenario.constant_problem (Double.of_Z 5))
  /\ number_of_objectives (Scenario.transformed (Double.of_Z 2) (Double.of_Z 5))
     = number_of_objectives (Scenario.constant_problem (Double.of_Z 5))
  /\ smallest_values_of_interest (Scenario.transformed (Double.of_Z 2) (Double.of_Z 5))
     = smallest_values_of_interest (Scenario.constant_problem (Double.of_Z 5))
  /\ largest_values_of_interest (Scenario.transformed (Double.of_Z 2) (Double.of_Z 5))
     = largest_values_of_interest (Scenario.constant_problem (Double.of_Z 5)).
Proof.
  apply (C3_metadata_unchanged (Scenario.constant_problem (Double.of_Z 5)) (Double.of_Z 2)).
  reflexivity.
Defined.



(** C5: for every input [x] and every factor [k], the transform built with
    the factor [k] and the transform built with the factor [1.0], on the same
    result [y] of the inner evaluation, yield [y[j] + k * penalty] and
    [y[j] + penalty] for every objective [j]: the penalty term is multiplied
    by [k]. *)
Theorem C5_factor_scaling inner k self_k self_1 x y h xs h1 ys :
  penalize_uninteresting_values (Some inner) k = Done self_k ->
  penalize_uninteresting_values (Some inner) Double.one = Done self_1 ->
  well_formed inner = true ->
  read_vector h x (number_of_variables inner) = Some xs ->
  doubles xs = true ->
  coco_evaluate_function inner x y h = Done h1 ->
  read_vector h1 y (number_of_objectives inner) = Some ys ->
  exists h_k h_1,
    coco_evaluate_function self_k x y h = Done h_k /\
    coco_evaluate_function self_1 x y h = Done h_1 /\
    forall j v, ys !! j = Some v ->
      h_k !! (y + j)%nat
      = Some (v + k * penalty_sum xs (smallest_values_of_interest inner)
                        (largest_values_of_interest inner))%D
      /\ h_1 !! (y + j)%nat
         = Some (v + penalty_sum xs (smallest_values_of_interest inner)
                       (largest_values_of_interest inner))%D.
Proof.
  intros Hk H1 Hwf Hx Vx Hinner Hy.
  destruct (evaluate_returns inner k self_k x y h xs h1 ys Hk Hwf Hx Vx Hinner Hy)
    as (_ & Vp & h_k & Hrun_k & Hread_k & _).
  destruct (evaluate_returns inner Double.one self_1 x y h xs h1 ys H1 Hwf Hx Vx Hinner Hy)
    as (_ & _ & h_1 & Hrun_1 & Hread_1 & _).
  exists h_k, h_1. split; [done|]. split; [done|].
  intros j v Hj. split.
  - eapply read_vector_lookup; [exact Hread_k|]. rewrite list_lookup_fmap, Hj. done.
  - rewrite <- (DoubleFacts.mul_one_l (penalty_sum xs _ _)) at 1 by exact Vp.
    eapply read_vector_lookup; [exact Hread_1|]. rewrite list_lookup_fmap, Hj. done.
Qed.

Lemma C5_witness :
  exists h_k h_1,
    coco_evaluate_function (Scenario.transformed (Double.of_Z 3) (Double.of_Z 5))
      Scenario.x Scenario.y
      (Scenario.heap_of (Double.of_Z 2) (Double.of_Z (-4)) Double.zero) = Done h_k /\
    coco_evaluate_function (Scenario.transformed Double.one (Double.of_Z 5))
      Scenario.x Scenario.y
      (Scenario.heap_of (Double.of_Z 2) (Double.of_Z (-4)) Double.zero) = Done h_1 /\
    forall j v, [Double.of_Z 5] !! j = Some v ->
      h_k !! (Scenario.y + j)%nat
      = Some (v + Double.of_Z 3
                  * penalty_sum [Double.of_Z 2; Double.of_Z (-4)]
                      Scenario.lower Scenario.upper)%D
      /\ h_1 !! (Scenario.y + j)%nat
         = Some (v + penalty_sum [Double.of_Z 2; Double.of_Z (-4)]
                       Scenario.lower Scenario.upper)%D.
Proof.
  apply (C5_factor_scaling
           (Scenario.constant_problem (Double.of_Z 5)) (Double.of_Z 3)
           (Scenario.transformed (Double.of_Z 3) (Double.of_Z 5))
           (Scenario.transformed Double.one (Double.of_Z 5))
           Scenario.x Scenario.y
           (Scenario.heap_of (Double.of_Z 2) (Double.of_Z (-4)) Double.zero)
           [Double.of_Z 2; Double.of_Z (-4)]
           (Scenario.heap_of (Double.of_Z 2) (Double.of_Z (-4)) (Double.of_Z 5))
           [Double.of_Z 5]).
  - reflexivity.
  - reflexivity.
  - reflexivity.
  - reflexivity.
  - reflexivity.
  - vm_compute. reflexivity.
  - reflexivity.
Defined.




(** C7: for the inner problem with [n = 2], [m = 1], lower bounds [[-1, -1]],
    upper bounds [[1, 1]], whose evaluation yields [[5.0]], wrapped with the
    factor [2.0], the evaluation at [x = [2, 0]] finds [c1 = 2 - 1 = 1 > 0] on
    coordinate 0, which contributes [1], and the contribution [0] on
    coordinate 1; the penalty is [1] and the result is
    [[5.0 + 2.0 * 1] = [7.0]]. *)
Theorem C7_concrete_scenario :
  (Double.of_Z 2 - Double.of_Z 1)%D = Double.of_Z 1
  /\ Double.gt (Double.of_Z 1) Double.zero = true
  /\ contribution (Double.of_Z 2) (Double.of_Z (-1)) (Double.of_Z 1) = Double.of_Z 1
  /\ contribution (Double.of_Z 0) (Double.of_Z (-1)) (Double.of_Z 1) = Double.zero
  /\ _puv_penalty (Scenario.heap_of (Double.of_Z 2) (Double.of_Z 0) Double.zero)
       Scenario.x Scenario.lower Scenario.upper 2 = Done (Double.of_Z 1)
  /\ Scenario.run_inner (Double.of_Z 5) (Double.of_Z 2) (Double.of_Z 0)
     = Done (Some (Double.of_Z 5))
  /\ Scenario.run (Double.of_Z 2) (Double.of_Z 5) (Double.of_Z 2) (Double.of_Z 0)
     = Done (Some (Double.of_Z 7)).
Proof. repeat split; vm_compute; reflexivity. Qed.

(** C8: the penalty is computed from [x] and the bounds of the inner
    problem.  The bound vectors that the evaluation reads, the transformed
    problem's own [smallest_values_of_interest] and
    [largest_values_of_interest], are those of the inner problem; the
    evaluation of the transformed problem first runs the penalty loop on [x]
    and these bounds, then evaluates the inner problem, then adds
    [factor * penalty]; the penalty that the loop returns is the sum of the
    squared excesses of [x] over the bounds of the inner problem, and it is
    that sum, scaled, that reaches every objective value. *)
Theorem C8_penalty_from_inner_bounds inner k self x y h xs h1 ys :
  penalize_uninteresting_values (Some inner) k = Done self ->
  well_formed inner = true ->
  read_vector h x (number_of_variables inner) = Some xs ->
  doubles xs = true ->
  coco_evaluate_function inner x y h = Done h1 ->
  read_vector h1 y (number_of_objectives inner) = Some ys ->
  smallest_values_of_interest self = smallest_values_of_interest inner
  /\ largest_values_of_interest self = largest_values_of_interest inner
  /\ coco_evaluate_function self x y h
     = (penalty ← _puv_penalty h x (smallest_values_of_interest inner)
                    (largest_values_of_interest inner) (number_of_variables inner);
        h1 ← coco_evaluate_function inner x y h;
        for_loop (number_of_objectives inner) (_puv_add_body y k penalty) h1)
  /\ _puv_penalty h x (smallest_values_of_interest self) (largest_values_of_interest self)
       (number_of_variables self)
     = Done (penalty_sum xs (smallest_values_of_interest inner)
               (largest_values_of_interest inner))
  /\ exists h2,
       coco_evaluate_function self x y h = Done h2 /\
       forall j v, ys !! j = Some v ->
         h2 !! (y + j)%nat
         = Some (v + k * penalty_sum xs (smallest_values_of_interest inner)
                           (largest_values_of_interest inner))%D.
Proof.
  intros Hself Hwf Hx Vx Hinner Hy.
  split; [injection Hself as <-; done|].
  split; [injection Hself as <-; done|].
  split; [apply evaluate_transformed; done|].
  destruct (evaluate_returns inner k self x y h xs h1 ys Hself Hwf Hx Vx Hinner Hy)
    as (_ & _ & h2 & Hrun & Hread & _).
  split.
  - apply well_formed_inv in Hwf as (Hlen & Hord & Vl & Vu).
    injection Hself as <-. simpl.
    pose proof (read_vector_length _ _ _ _ Hx) as Hn. rewrite <- Hn in Hx, Hlen |- *.
    apply penalty_loop_correct; done.
  - exists h2. split; [done|]. intros j v Hj.
    eapply read_vector_lookup; [exact Hread|]. rewrite list_lookup_fmap, Hj. done.
Qed.

Lemma C8_witness :
  smallest_values_of_interest (Scenario.transformed (Double.of_Z 2) (Double.of_Z 5))
  = smallest_values_of_interest (Scenario.constant_problem (Double.of_Z 5))
  /\ largest_values_of_interest (Scenario.transformed (Double.of_Z 2) (Double.of_Z 5))
     = largest_values_of_interest (Scenario.constant_problem (Double.of_Z 5))
  /\ coco_evaluate_function (Scenario.transformed (Double.of_Z 2) (Double.of_Z 5))
       Scenario.x Scenario.y (Scenario.heap_of (Double.of_Z 3) (Double.of_Z (-2)) Double.zero)
     = (penalty ← _puv_penalty
                    (Scenario.heap_of (Double.of_Z 3) (Double.of_Z (-2)) Double.zero)
                    Scenario.x
                    (smallest_values_of_interest (Scenario.constant_problem (Double.of_Z 5)))
                    (largest_values_of_interest (Scenario.constant_problem (Double.of_Z 5)))
                    (number_of_variables (Scenario.constant_problem (Double.of_Z 5)));
        h1 ← coco_evaluate_function (Scenario.constant_problem (Double.of_Z 5))
               Scenario.x Scenario.y
               (Scenario.heap_of (Double.of_Z 3) (Double.of_Z (-2)) Double.zero);
        for_loop (number_of_objectives (Scenario.constant_problem (Double.of_Z 5)))
          (_puv_add_body Scenario.y (Double.of_Z 2) penalty) h1)
  /\ _puv_penalty (Scenario.heap_of (Double.of_Z 3) (Double.of_Z (-2)) Double.zero)
       Scenario.x
       (smallest_values_of_interest (Scenario.transformed (Double.of_Z 2) (Double.of_Z 5)))
       (largest_values_of_interest (Scenario.transformed (Double.of_Z 2) (Double.of_Z 5)))
       (number_of_variables (Scenario.transformed (Double.of_Z 2) (Double.of_Z 5)))
     = Done (penalty_sum [Double.of_Z 3; Double.of_Z (-2)]
               (smallest_values_of_interest (Scenario.constant_problem (Double.of_Z 5)))
               (largest_values_of_interest (Scenario.constant_problem (Double.of_Z 5))))
  /\ exists h2,
       coco_evaluate_function (Scenario.transformed (Double.of_Z 2) (Double.of_Z 5))
         Scenario.x Scenario.y
         (Scenario.heap_of (Double.of_Z 3) (Double.of_Z (-2)) Double.zero) = Done h2 /\
       forall j v, [Double.of_Z 5] !! j = Some v ->
         h2 !! (Scenario.y + j)%nat
         = Some (v + Double.of_Z 2
                     * penalty_sum [Double.of_Z 3; Double.of_Z (-2)]
                         (smallest_values_of_interest
                            (Scenario.constant_problem (Double.of_Z 5)))
                         (largest_values_of_interest
                            (Scenario.constant_problem (Double.of_Z 5))))%D.
Proof.
  apply (C8_penalty_from_inner_bounds
           (Scenario.constant_problem (Double.of_Z 5)) (Double.of_Z 2)
           (Scenario.transformed (Double.of_Z 2) (Double.of_Z 5))
           Scenario.x Scenario.y
           (Scenario.heap_of (Double.of_Z 3) (Double.of_Z (-2)) Double.zero)
           [Double.of_Z 3; Double.of_Z (-2)]
           (Scenario.heap_of (Double.of_Z 3) (Double.of_Z (-2)) (Double.of_Z 5))
           [Double.of_Z 5]).
  - reflexivity.
  - reflexivity.
  - reflexivity.
  - reflexivity.
  - vm_compute. reflexivity.
  - reflexivity.
Defined.

(** C9 does not hold as it is stated: nothing keeps the caller from passing
    the same buffer as [x] and as [y].  With one variable, one objective,
    the factor [2.0] and an inner result [5.0], the call at [x = [2.0]] with
    [y = x] leaves [7.0] in [x]. *)
Lemma C9_counterexample :
  read_vector {[ 0%nat := Double.of_Z 2 ]} 0%nat 1 = Some [Double.of_Z 2]
  /\ Scenario.run_aliased (Double.of_Z 2) (Double.of_Z 5) (Double.of_Z 2)
     = Done (Some [Double.of_Z 7])
  /\ Double.of_Z 7 <> Double.of_Z 2.
Proof. split; [reflexivity|]. split; [vm_compute; reflexivity|discriminate]. Qed.

(** C9, amended: the evaluation of the transformed problem writes the
    [number_of_objectives] cells of [y] and nothing else, as long as the inner
    evaluation does so; hence, when the buffers [x] and [y] do not overlap,
    [x] after the call equals [x] before the call. *)
Theorem C9_input_vector_unchanged inner k self x y h h2 :
  penalize_uninteresting_values (Some inner) k = Done self ->
  (forall h1, coco_evaluate_function inner x y h = Done h1 ->
              same_outside y (number_of_objectives inner) h h1) ->
  coco_evaluate_function self x y h = Done h2 ->
  same_outside y (number_of_objectives self) h h2
  /\ ((x + number_of_variables self <= y \/ y + number_of_objectives self <= x)%nat ->
      read_vector h2 x (number_of_variables self)
      = read_vector h x (number_of_variables self)).
Proof.
  intros Hself Hframe Hrun.
  assert (Hout : same_outside y (number_of_objectives inner) h h2).
  { rewrite (evaluate_transformed inner k self x y h Hself) in Hrun.
    destruct (_puv_penalty h x _ _ _) as [penalty| |]; simpl in Hrun; try done.
    destruct (coco_evaluate_function inner x y h) as [h1| |] eqn:Hinner;
      simpl in Hrun; try done.
    intros a Ha. unfold within in Ha.
    rewrite (add_loop_writes _ _ _ _ _ _ _ Hrun) by lia.
    apply (Hframe h1); done. }
  injection Hself as <-. simpl. split; [done|].
  intros Hsep. apply read_vector_ext. intros a Ha. apply Hout. unfold within in *. lia.
Qed.

Lemma C9_witness :
  same_outside Scenario.y
    (number_of_objectives (Scenario.transformed (Double.of_Z 2) (Double.of_Z 5)))
    (Scenario.heap_of (Double.of_Z 2) (Double.of_Z 0) Double.zero)
    (Scenario.heap_of (Double.of_Z 2) (Double.of_Z 0) (Double.of_Z 7))
  /\ read_vector (Scenario.heap_of (Double.of_Z 2) (Double.of_Z 0) (Double.of_Z 7))
       Scenario.x (number_of_variables (Scenario.transformed (Double.of_Z 2) (Double.of_Z 5)))
     = read_vector (Scenario.heap_of (Double.of_Z 2) (Double.of_Z 0) Double.zero)
         Scenario.x (number_of_variables (Scenario.transformed (Double.of_Z 2) (Double.of_Z 5))).
Proof.
  destruct (C9_input_vector_unchanged
              (Scenario.constant_problem (Double.of_Z 5)) (Double.of_Z 2)
              (Scenario.transformed (Double.of_Z 2) (Double.of_Z 5))
              Scenario.x Scenario.y
              (Scenario.heap_of (Double.of_Z 2) (Double.of_Z 0) Double.zero)
              (Scenario.heap_of (Double.of_Z 2) (Double.of_Z 0) (Double.of_Z 7)))
    as [Hout Hx].
  - reflexivity.
  - intros h1 H1 a Ha.
    apply (store_writes _ Scenario.y 0%nat _ _ H1).
    unfold within in Ha. simpl in Ha. unfold Scenario.y in *. lia.
  - vm_compute. reflexivity.
  - split; [exact Hout|]. apply Hx. left. simpl. unfold Scenario.x, Scenario.y. lia.
Defined.

(** C10 does not hold as it is stated: without variables the penalty is
    [0.0], but [y[j] += factor * 0.0] is still executed, and with the factor
    [2.0] an inner result [-0.0] comes back as [+0.0]: not exactly the result
    of the inner problem. *)
Lemma C10_counterexample :
  number_of_variables (Scenario.nullary_problem (S754_zero true)) = 0%nat
  /\ Double.is_finite (Double.of_Z 2) = true
  /\ Scenario.run_nullary_inner (S754_zero true) = Done (Some (S754_zero true))
  /\ Scenario.run_nullary (Double.of_Z 2) (S754_zero true) = Done (Some (S754_zero false))
  /\ S754_zero false <> S754_zero true.
Proof. repeat split; try (vm_compute; reflexivity). discriminate. Qed.

(** C10, amended: if the inner problem has no variables, the first loop does
    not iterate, the penalty stays [0.0], and for every [x] and every finite
    factor the evaluation of the transformed problem returns the result of the
    inner problem with [factor * 0.0] added to each objective value: the
    value is identical to the inner one but for a negative zero, which may
    come back as the positive zero, and so numerically unchanged. *)
Theorem C10_no_variables inner k self x y h h1 ys :
  penalize_uninteresting_values (Some inner) k = Done self ->
  number_of_variables inner = 0%nat ->
  Double.is_finite k = true ->
  coco_evaluate_function inner x y h = Done h1 ->
  read_vector h1 y (number_of_objectives inner) = Some ys ->
  _puv_penalty h x (smallest_values_of_interest self) (largest_values_of_interest self)
    (number_of_variables self) = Done Double.zero
  /\ exists h2,
       coco_evaluate_function self x y h = Done h2 /\
       forall j v, ys !! j = Some v ->
         exists v', h2 !! (y + j)%nat = Some v'
           /\ v' = (v + k * Double.zero)%D
           /\ equal_up_to_zero_sign v v' /\ numerically_equal v v'.
Proof.
  intros Hself Hn Hk Hinner Hy.
  pose proof (read_vector_length _ _ _ _ Hy) as Hm. rewrite <- Hm in Hy.
  destruct (add_loop_correct k Double.zero y ys h1 Hy) as (h2 & Hrun & Hread & _).
  split.
  - injection Hself as <-. simpl. rewrite Hn. done.
  - exists h2. split.
    + rewrite (evaluate_transformed inner k self x y h Hself).
      rewrite Hn. cbn [_puv_penalty for_loop for_loop_from mbind outcome_bind].
      rewrite Hinner. cbn [mbind outcome_bind]. rewrite <- Hm. done.
    + intros j v Hj. exists (v + k * Double.zero)%D. split; [|split; [done|split]].
      * eapply read_vector_lookup; [exact Hread|]. rewrite list_lookup_fmap, Hj. done.
      * apply add_mul_zero. done.
      * apply equal_up_to_zero_sign_numerically, add_mul_zero. done.
Qed.

Lemma C10_witness :
  _puv_penalty (Scenario.heap_of (Double.of_Z 3) (Double.of_Z 4) Double.zero) Scenario.x
    (smallest_values_of_interest (Scenario.nullary_transformed (Double.of_Z 2) (S754_zero true)))
    (largest_values_of_interest (Scenario.nullary_transformed (Double.of_Z 2) (S754_zero true)))
    (number_of_variables (Scenario.nullary_transformed (Double.of_Z 2) (S754_zero true)))
  = Done Double.zero
  /\ exists h2,
       coco_evaluate_function (Scenario.nullary_transformed (Double.of_Z 2) (S754_zero true))
         Scenario.x Scenario.y
         (Scenario.heap_of (Double.of_Z 3) (Double.of_Z 4) Double.zero) = Done h2 /\
       forall j v, [S754_zero true] !! j = Some v ->
         exists v', h2 !! (Scenario.y + j)%nat = Some v'
           /\ v' = (v + Double.of_Z 2 * Double.zero)%D
           /\ equal_up_to_zero_sign v v' /\ numerically_equal v v'.
Proof.
  apply (C10_no_variables
           (Scenario.nullary_problem (S754_zero true)) (Double.of_Z 2)
           (Scenario.nullary_transformed (Double.of_Z 2) (S754_zero true))
           Scenario.x Scenario.y
           (Scenario.heap_of (Double.of_Z 3) (Double.of_Z 4) Double.zero)
           (Scenario.heap_of (Double.of_Z 3) (Double.of_Z 4) (S754_zero true))
           [S754_zero true]).
  - reflexivity.
  - reflexivity.
  - reflexivity.
  - vm_compute. reflexivity.
  - reflexivity.
Defined.


(** * Further properties of the evaluation routine *)

(** ** The terms of the sum *)

Lemma contribution_unpenalised xi lb ub :
  Double.is_double xi -> Double.is_double lb -> Double.is_double ub ->
  unpenalised xi lb ub = true -> contribution xi lb ub = Double.zero.
Proof.
  intros Vx Vl Vu Hun. unfold unpenalised in Hun.
  apply orb_prop in Hun as [Hnan|Hin].
  - destruct xi; try done. unfold contribution.
    destruct lb as [[|]|[|]| |[|] ? ?]; destruct ub as [[|]|[|]| |[|] ? ?]; done.
  - apply andb_prop in Hin as [Hl Hu]. apply contribution_in_bounds; done.
Qed.

Lemma fold_unpenalised xs : forall lbs ubs acc,
  all_unpenalised xs lbs ubs = true ->
  doubles xs = true -> doubles lbs = true -> doubles ubs = true ->
  Double.is_nonneg acc = true ->
  fold_left Double.add (contributions xs lbs ubs) acc = acc.
Proof.
  induction xs as [|xi xs IH]; intros [|lb lbs] [|ub ubs] acc Hin Vx Vl Vu Nacc; try done.
  simpl in Hin. apply andb_prop in Hin as [Hun Hrest].
  apply doubles_cons in Vx as [Vxi Vx]. apply doubles_cons in Vl as [Vlb Vl].
  apply doubles_cons in Vu as [Vub Vu].
  cbn [contributions fold_left].
  rewrite contribution_unpenalised, DoubleFacts.add_zero_r by done.
  apply IH; done.
Qed.

Lemma all_unpenalised_length xs : forall lbs ubs,
  all_unpenalised xs lbs ubs = true -> length lbs = length xs.
Proof.
  induction xs as [|xi xs IH]; intros [|lb lbs] [|ub ubs] H; try done.
  simpl in H. apply andb_prop in H as [_ H]. simpl. f_equal. eapply IH. done.
Qed.

Lemma contribution_mono xi xi' lb ub :
  Double.is_double xi -> Double.is_double xi' ->
  Double.is_double lb -> Double.is_double ub ->
  Double.lt lb ub = true -> no_closer xi xi' lb ub = true ->
  Double.le (contribution xi lb ub) (contribution xi' lb ub) = true.
Proof.
  intros Vx Vx' Vl Vu Hlu Hno. unfold no_closer in Hno.
  apply orb_prop in Hno as [Hun|Hout].
  - rewrite (contribution_unpenalised xi lb ub) by done.
    apply DoubleFacts.le_zero_any. apply contribution_nonneg; done.
  - unfold further_outside in Hout. apply orb_prop in Hout as [Hout|Hout];
      apply andb_prop in Hout as [Hlt Hle].
    + assert (Hlt' : Double.lt ub xi' = true)
        by (apply (DoubleFacts.lt_le_trans ub xi xi'); done).
      rewrite !contribution_above by done.
      apply DoubleFacts.square_mono.
      * apply DoubleFacts.sub_valid; done.
      * apply DoubleFacts.sub_valid; done.
      * apply DoubleFacts.sub_gt_pos; done.
      * apply DoubleFacts.sub_mono_l; done.
    + assert (Hlt' : Double.lt xi' lb = true)
        by (apply (DoubleFacts.le_lt_trans xi' xi lb); done).
      rewrite !contribution_below by done.
      apply DoubleFacts.square_mono.
      * apply DoubleFacts.sub_valid; done.
      * apply DoubleFacts.sub_valid; done.
      * apply DoubleFacts.sub_gt_pos; done.
      * apply DoubleFacts.sub_mono_r; done.
Qed.

Lemma fold_nonneg xs : forall lbs ubs acc,
  doubles xs = true -> doubles lbs = true -> doubles ubs = true ->
  Double.is_nonneg acc = true -> Double.is_double acc ->
  Double.is_nonneg (fold_left Double.add (contributions xs lbs ubs) acc) = true
  /\ Double.is_double (fold_left Double.add (contributions xs lbs ubs) acc).
Proof.
  induction xs as [|xi xs IH]; intros [|lb lbs] [|ub ubs] acc Vx Vl Vu Nacc Vacc; try done.
  apply doubles_cons in Vx as [Vxi Vx]. apply doubles_cons in Vl as [Vlb Vl].
  apply doubles_cons in Vu as [Vub Vu].
  cbn [contributions fold_left].
  destruct (contribution_nonneg xi lb ub Vxi Vlb Vub) as [Nc Vc].
  destruct (DoubleFacts.add_nonneg acc _ Vacc Vc Nacc Nc) as [Ns Vs].
  apply IH; done.
Qed.

Lemma fold_mono xs : forall xs' lbs ubs acc acc',
  all_no_closer xs xs' lbs ubs = true ->
  bounds_ordered lbs ubs = true ->
  doubles xs = true -> doubles xs' = true -> doubles lbs = true -> doubles ubs = true ->
  Double.is_nonneg acc = true -> Double.is_double acc ->
  Double.is_nonneg acc' = true -> Double.is_double acc' ->
  Double.le acc acc' = true ->
  Double.le (fold_left Double.add (contributions xs lbs ubs) acc)
    (fold_left Double.add (contributions xs' lbs ubs) acc') = true.
Proof.
  induction xs as [|xi xs IH];
    intros [|xi' xs'] [|lb lbs] [|ub ubs] acc acc' Hno Hord Vx Vx' Vl Vu Na Va Na' Va' Hle;
    try done.
  simpl in Hno, Hord. apply andb_prop in Hno as [Hno Hrest].
  apply andb_prop in Hord as [Hlu Hord].
  apply doubles_cons in Vx as [Vxi Vx]. apply doubles_cons in Vx' as [Vxi' Vx'].
  apply doubles_cons in Vl as [Vlb Vl]. apply doubles_cons in Vu as [Vub Vu].
  cbn [contributions fold_left].
  destruct (contribution_nonneg xi lb ub Vxi Vlb Vub) as [Nc Vc].
  destruct (contribution_nonneg xi' lb ub Vxi' Vlb Vub) as [Nc' Vc'].
  destruct (DoubleFacts.add_nonneg acc _ Va Vc Na Nc) as [Ns Vs].
  destruct (DoubleFacts.add_nonneg acc' _ Va' Vc' Na' Nc') as [Ns' Vs'].
  apply IH; try done.
  apply DoubleFacts.add_mono; try done.
  apply contribution_mono; done.
Qed.

Lemma all_no_closer_length xs : forall xs' lbs ubs,
  all_no_closer xs xs' lbs ubs = true ->
  length xs' = length xs /\ length lbs = length xs.
Proof.
  induction xs as [|xi xs IH]; intros [|xi' xs'] [|lb lbs] [|ub ubs] H; try done.
  simpl in H. apply andb_prop in H as [_ H]. destruct (IH _ _ _ H). simpl. lia.
Qed.

(** The running sum does not decrease, and it is at least the term of every
    coordinate. *)
Lemma fold_ge_acc xs : forall lbs ubs acc,
  doubles xs = true -> doubles lbs = true -> doubles ubs = true ->
  Double.is_nonneg acc = true -> Double.is_double acc ->
  Double.le acc (fold_left Double.add (contributions xs lbs ubs) acc) = true.
Proof.
  induction xs as [|xi xs IH]; intros lbs ubs acc Vx Vl Vu Nacc Vacc.
  - simpl. apply DoubleFacts.le_refl_nonneg; done.
  - destruct lbs as [|lb lbs]; [simpl; apply DoubleFacts.le_refl_nonneg; done|].
    destruct ubs as [|ub ubs]; [simpl; apply DoubleFacts.le_refl_nonneg; done|].
    apply doubles_cons in Vx as [Vxi Vx]. apply doubles_cons in Vl as [Vlb Vl].
    apply doubles_cons in Vu as [Vub Vu].
    cbn [contributions fold_left].
    destruct (contribution_nonneg xi lb ub Vxi Vlb Vub) as [Nc Vc].
    destruct (DoubleFacts.add_nonneg acc _ Vacc Vc Nacc Nc) as [Ns Vs].
    destruct (fold_nonneg xs lbs ubs _ Vx Vl Vu Ns Vs) as [_ Vf].
    apply (DoubleFacts.le_trans acc (acc + contribution xi lb ub)%D); try done.
    + apply DoubleFacts.add_ge_l; done.
    + apply IH; done.
Qed.

Lemma fold_ge_term xs : forall i lbs ubs acc xi lb ub,
  xs !! i = Some xi -> lbs !! i = Some lb -> ubs !! i = Some ub ->
  doubles xs = true -> doubles lbs = true -> doubles ubs = true ->
  Double.is_nonneg acc = true -> Double.is_double acc ->
  Double.le (contribution xi lb ub)
    (fold_left Double.add (contributions xs lbs ubs) acc) = true.
Proof.
  induction xs as [|x0 xs IH];
    intros i [|l0 lbs] [|u0 ubs] acc xi lb ub Hxi Hlb Hub Vx Vl Vu Nacc Vacc; try done.
  apply doubles_cons in Vx as [Vx0 Vx]. apply doubles_cons in Vl as [Vl0 Vl].
  apply doubles_cons in Vu as [Vu0 Vu].
  cbn [contributions fold_left].
  destruct (contribution_nonneg x0 l0 u0 Vx0 Vl0 Vu0) as [Nc Vc].
  destruct (DoubleFacts.add_nonneg acc _ Vacc Vc Nacc Nc) as [Ns Vs].
  destruct i as [|i]; simpl in Hxi, Hlb, Hub.
  - injection Hxi as <-. injection Hlb as <-. injection Hub as <-.
    destruct (fold_nonneg xs lbs ubs _ Vx Vl Vu Ns Vs) as [_ Vf].
    apply (DoubleFacts.le_trans _ (acc + contribution x0 l0 u0)%D); try done.
    + apply DoubleFacts.add_ge_r; done.
    + apply fold_ge_acc; done.
  - apply (IH i); done.
Qed.

Lemma contribution_infinite s lb ub :
  Double.is_finite lb = true -> Double.is_finite ub = true ->
  contribution (S754_infinity s) lb ub = S754_infinity false.
Proof.
  intros Fl Fu.
  destruct s; destruct lb as [[|]|[|]| |[|] ? ?]; try done;
    destruct ub as [[|]|[|]| |[|] ? ?]; done.
Qed.

Lemma contribution_excess xi lb ub :
  Double.is_double xi -> Double.is_double lb -> Double.is_double ub ->
  Double.lt lb ub = true ->
  Double.lt ub xi || Double.lt xi lb = true ->
  contribution xi lb ub = (excess xi lb ub * excess xi lb ub)%D.
Proof.
  intros Vx Vl Vu Hlu Hout. apply orb_prop in Hout as [Hlt|Hlt].
  - rewrite excess_above, contribution_above by done. done.
  - rewrite excess_below, contribution_below by done. done.
Qed.

(** Adding a zero, and adding [0.0 * penalty]. *)
Lemma add_any_zero v s : equal_up_to_zero_sign v (v + S754_zero s)%D.
Proof.
  unfold equal_up_to_zero_sign.
  destruct s; destruct v as [[|]|[|]| |[|] ? ?]; simpl; auto.
Qed.

Lemma mul_zero_finite s p :
  Double.is_finite p = true -> exists s', (S754_zero s * p)%D = S754_zero s'.
Proof. destruct p as [?|?| |? ? ?]; try done; simpl; eauto. Qed.

(** ** The penalty *)

(** X1: whatever the coordinates of [x] are (NaN and infinities included),
    on ordered bounds the first loop ends and the penalty is [+0.0], a
    positive double or [+infinity]: never a NaN, never negative. *)
Theorem X1_penalty_never_nan_nor_negative h x xs lbs ubs :
  read_vector h x (length xs) = Some xs -> doubles xs = true ->
  length lbs = length xs -> bounds_ordered lbs ubs = true ->
  doubles lbs = true -> doubles ubs = true ->
  exists p,
    _puv_penalty h x lbs ubs (length xs) = Done p
    /\ Double.is_nonneg p = true /\ is_nan p = false.
Proof.
  intros Hx Vx Hlen Hord Vl Vu.
  destruct (penalty_loop_correct h x xs lbs ubs Hx Hlen Hord Vx Vl Vu) as (Hp & Np & _).
  exists (penalty_sum xs lbs ubs). split; [done|]. split; [done|].
  destruct (penalty_sum xs lbs ubs); done.
Qed.

Lemma X1_witness :
  exists p,
    _puv_penalty (Scenario.heap_of S754_nan (S754_infinity true) Double.zero)
      Scenario.x Scenario.lower Scenario.upper
      (length [S754_nan; S754_infinity true]) = Done p
    /\ Double.is_nonneg p = true /\ is_nan p = false.
Proof.
  apply (X1_penalty_never_nan_nor_negative
           (Scenario.heap_of S754_nan (S754_infinity true) Double.zero)
           Scenario.x [S754_nan; S754_infinity true] Scenario.lower Scenario.upper);
    reflexivity.
Defined.

(** X2: a NaN coordinate is not penalised.  When every coordinate of [x] is
    a NaN or lies inside the bounds, the penalty is [0.0] and every objective
    value returned is the inner one plus [factor * 0.0]: the NaN does not
    reach [y] through the penalty. *)
Theorem X2_nan_coordinates_not_penalised inner k self x y h xs h1 ys :
  penalize_uninteresting_values (Some inner) k = Done self ->
  well_formed inner = true ->
  read_vector h x (number_of_variables inner) = Some xs ->
  doubles xs = true ->
  all_unpenalised xs (smallest_values_of_interest inner)
    (largest_values_of_interest inner) = true ->
  coco_evaluate_function inner x y h = Done h1 ->
  read_vector h1 y (number_of_objectives inner) = Some ys ->
  _puv_penalty h x (smallest_values_of_interest self) (largest_values_of_interest self)
    (number_of_variables self) = Done Double.zero
  /\ exists h2,
       coco_evaluate_function self x y h = Done h2 /\
       forall j v, ys !! j = Some v ->
         h2 !! (y + j)%nat = Some (v + k * Double.zero)%D.
Proof.
  intros Hself Hwf Hx Vx Hun Hinner Hy.
  destruct (evaluate_returns inner k self x y h xs h1 ys Hself Hwf Hx Vx Hinner Hy)
    as (_ & _ & h2 & Hrun & Hread & _).
  apply well_formed_inv in Hwf as (Hlen & Hord & Vl & Vu).
  assert (Hzero : penalty_sum xs (smallest_values_of_interest inner)
                    (largest_values_of_interest inner) = Double.zero)
    by (apply fold_unpenalised; done).
  rewrite Hzero in Hread. split.
  - injection Hself as <-. simpl.
    pose proof (read_vector_length _ _ _ _ Hx) as Hn. rewrite <- Hn in Hx, Hlen |- *.
    destruct (penalty_loop_correct h x xs _ _ Hx Hlen Hord Vx Vl Vu) as (Hp & _).
    rewrite Hp, Hzero. done.
  - exists h2. split; [done|]. intros j v Hj.
    eapply read_vector_lookup; [exact Hread|]. rewrite list_lookup_fmap, Hj. done.
Qed.

Lemma X2_witness :
  _puv_penalty (Scenario.heap_of S754_nan (Double.of_Z 0) Double.zero) Scenario.x
    (smallest_values_of_interest (Scenario.transformed (Double.of_Z 2) (Double.of_Z 5)))
    (largest_values_of_interest (Scenario.transformed (Double.of_Z 2) (Double.of_Z 5)))
    (number_of_variables (Scenario.transformed (Double.of_Z 2) (Double.of_Z 5)))
  = Done Double.zero
  /\ exists h2,
       coco_evaluate_function (Scenario.transformed (Double.of_Z 2) (Double.of_Z 5))
         Scenario.x Scenario.y
         (Scenario.heap_of S754_nan (Double.of_Z 0) Double.zero) = Done h2 /\
       forall j v, [Double.of_Z 5] !! j = Some v ->
         h2 !! (Scenario.y + j)%nat = Some (v + Double.of_Z 2 * Double.zero)%D.
Proof.
  apply (X2_nan_coordinates_not_penalised
           (Scenario.constant_problem (Double.of_Z 5)) (Double.of_Z 2)
           (Scenario.transformed (Double.of_Z 2) (Double.of_Z 5))
           Scenario.x Scenario.y
           (Scenario.heap_of S754_nan (Double.of_Z 0) Double.zero)
           [S754_nan; Double.of_Z 0]
           (Scenario.heap_of S754_nan (Double.of_Z 0) (Double.of_Z 5))
           [Double.of_Z 5]);
    reflexivity.
Defined.

(** X3: the penalty is monotone in every coordinate at once.  If each
    coordinate of [x'] is no closer to the bounds than the same coordinate of
    [x] (the coordinate of [x] is not penalised, or the one of [x'] is at
    least as far outside on the same side), whatever the other coordinates
    are, then the penalty of [x'] is at least the penalty of [x]. *)
Theorem X3_penalty_monotone_in_every_coordinate h h' x xs xs' lbs ubs :
  read_vector h x (length xs) = Some xs -> doubles xs = true ->
  read_vector h' x (length xs) = Some xs' -> doubles xs' = true ->
  bounds_ordered lbs ubs = true -> doubles lbs = true -> doubles ubs = true ->
  all_no_closer xs xs' lbs ubs = true ->
  exists p p',
    _puv_penalty h x lbs ubs (length xs) = Done p
    /\ _puv_penalty h' x lbs ubs (length xs) = Done p'
    /\ Double.le p p' = true.
Proof.
  intros Hx Vx Hx' Vx' Hord Vl Vu Hno.
  destruct (all_no_closer_length _ _ _ _ Hno) as [Hlen' Hlen].
  destruct (penalty_loop_correct h x xs lbs ubs Hx Hlen Hord Vx Vl Vu) as (Hp & _).
  rewrite <- Hlen' in Hx', Hlen.
  destruct (penalty_loop_correct h' x xs' lbs ubs Hx' Hlen Hord Vx' Vl Vu) as (Hp' & _).
  rewrite Hlen' in Hp'.
  exists (penalty_sum xs lbs ubs), (penalty_sum xs' lbs ubs).
  split; [done|]. split; [done|].
  apply fold_mono; done.
Qed.

Lemma X3_witness :
  exists p p',
    _puv_penalty (Scenario.heap_of (Double.of_Z 2) (Double.of_Z (-3)) Double.zero)
      Scenario.x Scenario.lower Scenario.upper
      (length [Double.of_Z 2; Double.of_Z (-3)]) = Done p
    /\ _puv_penalty (Scenario.heap_of (Double.of_Z 5) (Double.of_Z (-4)) Double.zero)
         Scenario.x Scenario.lower Scenario.upper
         (length [Double.of_Z 2; Double.of_Z (-3)]) = Done p'
    /\ Double.le p p' = true.
Proof.
  apply (X3_penalty_monotone_in_every_coordinate
           (Scenario.heap_of (Double.of_Z 2) (Double.of_Z (-3)) Double.zero)
           (Scenario.heap_of (Double.of_Z 5) (Double.of_Z (-4)) Double.zero)
           Scenario.x [Double.of_Z 2; Double.of_Z (-3)] [Double.of_Z 5; Double.of_Z (-4)]
           Scenario.lower Scenario.upper);
    reflexivity.
Defined.

(** X4: the penalty is at least the square of the excess of every coordinate
    that lies outside its bounds: the violations of the other coordinates
    never cancel it. *)
Theorem X4_penalty_at_least_each_squared_excess h x xs lbs ubs i xi lb ub :
  read_vector h x (length xs) = Some xs -> doubles xs = true ->
  length lbs = length xs -> bounds_ordered lbs ubs = true ->
  doubles lbs = true -> doubles ubs = true ->
  xs !! i = Some xi -> lbs !! i = Some lb -> ubs !! i = Some ub ->
  Double.lt ub xi || Double.lt xi lb = true ->
  exists p,
    _puv_penalty h x lbs ubs (length xs) = Done p
    /\ Double.le (excess xi lb ub * excess xi lb ub)%D p = true.
Proof.
  intros Hx Vx Hlen Hord Vl Vu Hxi Hlb Hub Hout.
  destruct (penalty_loop_correct h x xs lbs ubs Hx Hlen Hord Vx Vl Vu) as (Hp & _).
  exists (penalty_sum xs lbs ubs). split; [done|].
  rewrite <- contribution_excess; try done.
  - apply (fold_ge_term xs i); done.
  - exact (doubles_lookup xs i xi Vx Hxi).
  - exact (doubles_lookup lbs i lb Vl Hlb).
  - exact (doubles_lookup ubs i ub Vu Hub).
  - exact (bounds_ordered_lookup lbs ubs i lb ub Hord Hlb Hub).
Qed.

Lemma X4_witness :
  exists p,
    _puv_penalty (Scenario.heap_of (Double.of_Z 7) (Double.of_Z (-3)) Double.zero)
      Scenario.x Scenario.lower Scenario.upper
      (length [Double.of_Z 7; Double.of_Z (-3)]) = Done p
    /\ Double.le (excess (Double.of_Z (-3)) (Double.of_Z (-1)) (Double.of_Z 1)
                  * excess (Double.of_Z (-3)) (Double.of_Z (-1)) (Double.of_Z 1))%D p
       = true.
Proof.
  apply (X4_penalty_at_least_each_squared_excess
           (Scenario.heap_of (Double.of_Z 7) (Double.of_Z (-3)) Double.zero)
           Scenario.x [Double.of_Z 7; Double.of_Z (-3)] Scenario.lower Scenario.upper
           1%nat (Double.of_Z (-3)) (Double.of_Z (-1)) (Double.of_Z 1));
    reflexivity.
Defined.

(** X5: an infinite coordinate of [x] whose bounds are finite makes the
    penalty [+infinity], whatever the other coordinates are. *)
Theorem X5_infinite_coordinate_infinite_penalty h x xs lbs ubs i s lb ub :
  read_vector h x (length xs) = Some xs -> doubles xs = true ->
  length lbs = length xs -> bounds_ordered lbs ubs = true ->
  doubles lbs = true -> doubles ubs = true ->
  xs !! i = Some (S754_infinity s) -> lbs !! i = Some lb -> ubs !! i = Some ub ->
  Double.is_finite lb = true -> Double.is_finite ub = true ->
  _puv_penalty h x lbs ubs (length xs) = Done (S754_infinity false).
Proof.
  intros Hx Vx Hlen Hord Vl Vu Hxi Hlb Hub Fl Fu.
  destruct (penalty_loop_correct h x xs lbs ubs Hx Hlen Hord Vx Vl Vu) as (Hp & _).
  rewrite Hp. f_equal. apply DoubleFacts.le_infinity_eq.
  rewrite <- (contribution_infinite s lb ub Fl Fu).
  apply (fold_ge_term xs i); done.
Qed.

Lemma X5_witness :
  _puv_penalty (Scenario.heap_of (Double.of_Z 0) (S754_infinity true) Double.zero)
    Scenario.x Scenario.lower Scenario.upper
    (length [Double.of_Z 0; S754_infinity true]) = Done (S754_infinity false).
Proof.
  apply (X5_infinite_coordinate_infinite_penalty
           (Scenario.heap_of (Double.of_Z 0) (S754_infinity true) Double.zero)
           Scenario.x [Double.of_Z 0; S754_infinity true] Scenario.lower Scenario.upper
           1%nat true (Double.of_Z (-1)) (Double.of_Z 1));
    reflexivity.
Defined.

(** ** Wrapping and factors *)

(** X6: transformations compose.  Wrapping a problem with the factor [k1] and
    the result with the factor [k2] yields a problem whose evaluation returns
    [(inner[j] + k1 * penalty) + k2 * penalty] for every objective [j], the
    penalty being computed twice from the bounds of the innermost problem. *)
Theorem X6_wrapping_twice_adds_both_penalties inner k1 k2 self1 self2 x y h xs h1 ys :
  penalize_uninteresting_values (Some inner) k1 = Done self1 ->
  penalize_uninteresting_values (Some self1) k2 = Done self2 ->
  well_formed inner = true ->
  read_vector h x (number_of_variables inner) = Some xs ->
  doubles xs = true ->
  coco_evaluate_function inner x y h = Done h1 ->
  read_vector h1 y (number_of_objectives inner) = Some ys ->
  exists h3,
    coco_evaluate_function self2 x y h = Done h3 /\
    forall j v, ys !! j = Some v ->
      h3 !! (y + j)%nat
      = Some ((v + k1 * penalty_sum xs (smallest_values_of_interest inner)
                         (largest_values_of_interest inner))
              + k2 * penalty_sum xs (smallest_values_of_interest inner)
                       (largest_values_of_interest inner))%D.
Proof.
  intros H1 H2 Hwf Hx Vx Hinner Hy.
  destruct (evaluate_returns inner k1 self1 x y h xs h1 ys H1 Hwf Hx Vx Hinner Hy)
    as (_ & _ & h2 & Hrun1 & Hread1 & _).
  assert (Hwf1 : well_formed self1 = true) by (injection H1 as <-; exact Hwf).
  assert (Hn1 : number_of_variables self1 = number_of_variables inner)
    by (injection H1 as <-; done).
  assert (Hm1 : number_of_objectives self1 = number_of_objectives inner)
    by (injection H1 as <-; done).
  assert (Hl1 : smallest_values_of_interest self1 = smallest_values_of_interest inner)
    by (injection H1 as <-; done).
  assert (Hu1 : largest_values_of_interest self1 = largest_values_of_interest inner)
    by (injection H1 as <-; done).
  rewrite <- Hn1 in Hx. rewrite <- Hm1 in Hread1.
  destruct (evaluate_returns self1 k2 self2 x y h xs h2 _ H2 Hwf1 Hx Vx Hrun1 Hread1)
    as (_ & _ & h3 & Hrun2 & Hread2 & _).
  rewrite Hl1, Hu1 in Hread2.
  exists h3. split; [done|]. intros j v Hj.
  eapply read_vector_lookup; [exact Hread2|].
  rewrite !list_lookup_fmap, Hj. done.
Qed.

Lemma X6_witness :
  exists h3,
    coco_evaluate_function
      (Scenario.wrap (Scenario.transformed (Double.of_Z 2) (Double.of_Z 5)) (Double.of_Z 3))
      Scenario.x Scenario.y
      (Scenario.heap_of (Double.of_Z 2) (Double.of_Z 0) Double.zero) = Done h3 /\
    forall j v, [Double.of_Z 5] !! j = Some v ->
      h3 !! (Scenario.y + j)%nat
      = Some ((v + Double.of_Z 2
                   * penalty_sum [Double.of_Z 2; Double.of_Z 0]
                       (smallest_values_of_interest
                          (Scenario.constant_problem (Double.of_Z 5)))
                       (largest_values_of_interest
                          (Scenario.constant_problem (Double.of_Z 5))))
              + Double.of_Z 3
                * penalty_sum [Double.of_Z 2; Double.of_Z 0]
                    (smallest_values_of_interest
                       (Scenario.constant_problem (Double.of_Z 5)))
                    (largest_values_of_interest
                       (Scenario.constant_problem (Double.of_Z 5))))%D.
Proof.
  apply (X6_wrapping_twice_adds_both_penalties
           (Scenario.constant_problem (Double.of_Z 5)) (Double.of_Z 2) (Double.of_Z 3)
           (Scenario.transformed (Double.of_Z 2) (Double.of_Z 5))
           (Scenario.wrap (Scenario.transformed (Double.of_Z 2) (Double.of_Z 5))
              (Double.of_Z 3))
           Scenario.x Scenario.y
           (Scenario.heap_of (Double.of_Z 2) (Double.of_Z 0) Double.zero)
           [Double.of_Z 2; Double.of_Z 0]
           (Scenario.heap_of (Double.of_Z 2) (Double.of_Z 0) (Double.of_Z 5))
           [Double.of_Z 5]);
    reflexivity.
Defined.

(** X7: a zero factor switches the penalty off as long as the penalty is
    finite: every objective value is then the inner one, up to the sign of a
    zero.  When the penalty has overflowed to [+infinity], [0.0 * infinity]
    is a NaN and every objective value returned is a NaN. *)
Theorem X7_zero_factor inner s self x y h xs h1 ys :
  penalize_uninteresting_values (Some inner) (S754_zero s) = Done self ->
  well_formed inner = true ->
  read_vector h x (number_of_variables inner) = Some xs ->
  doubles xs = true ->
  coco_evaluate_function inner x y h = Done h1 ->
  read_vector h1 y (number_of_objectives inner) = Some ys ->
  exists h2,
    coco_evaluate_function self x y h = Done h2 /\
    forall j v, ys !! j = Some v ->
      exists v', h2 !! (y + j)%nat = Some v' /\
        if Double.is_finite (penalty_sum xs (smallest_values_of_interest inner)
                               (largest_values_of_interest inner))
        then equal_up_to_zero_sign v v'
        else v' = S754_nan.
Proof.
  intros Hself Hwf Hx Vx Hinner Hy.
  destruct (evaluate_returns inner _ self x y h xs h1 ys Hself Hwf Hx Vx Hinner Hy)
    as (Np & _ & h2 & Hrun & Hread & _).
  exists h2. split; [done|]. intros j v Hj.
  eexists. split.
  - eapply read_vector_lookup; [exact Hread|]. rewrite list_lookup_fmap, Hj. done.
  - destruct (Double.is_finite (penalty_sum xs _ _)) eqn:F.
    + destruct (mul_zero_finite s _ F) as [s' ->]. apply add_any_zero.
    + destruct (penalty_sum xs _ _) as [[|]|[|]| |[|] ? ?]; try done.
      destruct s, v as [[|]|[|]| |[|] ? ?]; done.
Qed.

Lemma X7_witness :
  exists h2,
    coco_evaluate_function (Scenario.transformed Double.zero (Double.of_Z 5))
      Scenario.x Scenario.y
      (Scenario.heap_of huge (Double.of_Z 0) Double.zero) = Done h2 /\
    forall j v, [Double.of_Z 5] !! j = Some v ->
      exists v', h2 !! (Scenario.y + j)%nat = Some v' /\
        if Double.is_finite
             (penalty_sum [huge; Double.of_Z 0]
                (smallest_values_of_interest (Scenario.constant_problem (Double.of_Z 5)))
                (largest_values_of_interest (Scenario.constant_problem (Double.of_Z 5))))
        then equal_up_to_zero_sign v v'
        else v' = S754_nan.
Proof.
  apply (X7_zero_factor
           (Scenario.constant_problem (Double.of_Z 5)) false
           (Scenario.transformed Double.zero (Double.of_Z 5))
           Scenario.x Scenario.y
           (Scenario.heap_of huge (Double.of_Z 0) Double.zero)
           [huge; Double.of_Z 0]
           (Scenario.heap_of huge (Double.of_Z 0) (Double.of_Z 5))
           [Double.of_Z 5]);
    reflexivity.
Defined.

(** ** Integer data *)

Lemma small_abs n : small n = true -> Z.abs n < 2 ^ 53.
Proof. unfold small. intros H. apply Z.ltb_lt in H. done. Qed.

Lemma int_contribution_nonneg x l u : 0 <= int_contribution x l u.
Proof.
  unfold int_contribution.
  destruct (0 <? x - u); [apply Z.square_nonneg|].
  destruct (0 <? l - x); [apply Z.square_nonneg|]. lia.
Qed.

Lemma int_penalty_nonneg xs : forall ls us, 0 <= int_penalty xs ls us.
Proof.
  induction xs as [|x xs IH]; intros [|l ls] [|u us]; simpl; try lia.
  pose proof (int_contribution_nonneg x l u). pose proof (IH ls us). lia.
Qed.

Lemma contribution_of_Z x l u :
  small x = true -> small l = true -> small u = true ->
  int_contribution x l u < 2 ^ 53 ->
  contribution (Double.of_Z x) (Double.of_Z l) (Double.of_Z u)
  = Double.of_Z (int_contribution x l u).
Proof.
  intros Hx Hl Hu Hc.
  apply small_abs in Hx, Hl, Hu.
  destruct (DoubleFacts.of_Z_exact x Hx) as (Vx & _).
  destruct (DoubleFacts.of_Z_exact l Hl) as (Vl & _).
  destruct (DoubleFacts.of_Z_exact u Hu) as (Vu & _).
  unfold contribution, int_contribution in *.
  destruct (Z.ltb_spec 0 (x - u)) as [H1|H1].
  - assert (Hs : Z.abs (x - u) < 2 ^ 53) by nia.
    rewrite DoubleFacts.sub_of_Z by lia.
    change Double.zero with (Double.of_Z 0).
    unfold Double.gt. fold (Double.lt (Double.of_Z 0) (Double.of_Z (x - u))).
    rewrite DoubleFacts.lt_of_Z by lia.
    destruct (Z.ltb_spec 0 (x - u)); [|lia].
    apply DoubleFacts.mul_of_Z; lia.
  - rewrite DoubleFacts.sub_le_not_pos; try done.
    2:{ rewrite DoubleFacts.le_of_Z by done. apply Z.leb_le. lia. }
    destruct (Z.ltb_spec 0 (l - x)) as [H2|H2].
    + assert (Hs : Z.abs (l - x) < 2 ^ 53) by nia.
      rewrite DoubleFacts.sub_of_Z by lia.
      change Double.zero with (Double.of_Z 0).
      unfold Double.gt. fold (Double.lt (Double.of_Z 0) (Double.of_Z (l - x))).
      rewrite DoubleFacts.lt_of_Z by lia.
      destruct (Z.ltb_spec 0 (l - x)); [|lia].
      apply DoubleFacts.mul_of_Z; lia.
    + rewrite DoubleFacts.sub_le_not_pos; try done.
      rewrite DoubleFacts.le_of_Z by done. apply Z.leb_le. lia.
Qed.

Lemma fold_of_Z xs : forall ls us acc,
  smalls xs = true -> smalls ls = true -> smalls us = true ->
  0 <= acc -> acc + int_penalty xs ls us < 2 ^ 53 ->
  fold_left Double.add
    (contributions (Double.of_Z <$> xs) (Double.of_Z <$> ls) (Double.of_Z <$> us))
    (Double.of_Z acc)
  = Double.of_Z (acc + int_penalty xs ls us).
Proof.
  induction xs as [|x xs IH]; intros [|l ls] [|u us] acc Sx Sl Su Hacc Hsum;
    simpl in *; rewrite ?Z.add_0_r; try done.
  apply andb_prop in Sx as [Hx Sx]. apply andb_prop in Sl as [Hl Sl].
  apply andb_prop in Su as [Hu Su].
  pose proof (int_contribution_nonneg x l u).
  pose proof (int_penalty_nonneg xs ls us).
  rewrite contribution_of_Z by (done || lia).
  rewrite DoubleFacts.add_of_Z_any by lia.
  rewrite IH by (done || lia). f_equal. lia.
Qed.

Lemma doubles_of_Z l : smalls l = true -> doubles (Double.of_Z <$> l) = true.
Proof.
  induction l as [|n l IH]; [done|]. simpl. intros H.
  apply andb_prop in H as [Hn Hl]. apply andb_true_intro. split; [|apply IH; done].
  apply small_abs in Hn. destruct (DoubleFacts.of_Z_exact n Hn) as (V & _). exact V.
Qed.

Lemma bounds_ordered_of_Z ls : forall us,
  smalls ls = true -> smalls us = true ->
  bounds_ordered (Double.of_Z <$> ls) (Double.of_Z <$> us) = int_bounds_ordered ls us.
Proof.
  induction ls as [|l ls IH]; intros [|u us] Sl Su; try done.
  simpl in *. apply andb_prop in Sl as [Hl Sl]. apply andb_prop in Su as [Hu Su].
  rewrite DoubleFacts.lt_of_Z by (apply small_abs; done). rewrite IH by done. done.
Qed.

Lemma penalty_sum_of_Z xs ls us :
  smalls xs = true -> smalls ls = true -> smalls us = true ->
  int_penalty xs ls us < 2 ^ 53 ->
  penalty_sum (Double.of_Z <$> xs) (Double.of_Z <$> ls) (Double.of_Z <$> us)
  = Double.of_Z (int_penalty xs ls us).
Proof.
  intros Sx Sl Su Hp. unfold penalty_sum.
  change Double.zero with (Double.of_Z 0).
  rewrite fold_of_Z by (done || lia). done.
Qed.

(** X8: on integer data the penalty is exact.  When the coordinates of [x]
    and the bounds are integers below [2 ^ 53] in magnitude and the sum of the
    squared excesses, computed over the integers, is below [2 ^ 53], the first
    loop returns that sum: a finite double whose value is the integer
    itself. *)
Theorem X8_penalty_exact_on_integers h x xs ls us :
  read_vector h x (length xs) = Some (Double.of_Z <$> xs) ->
  length ls = length xs ->
  smalls xs = true -> smalls ls = true -> smalls us = true ->
  int_bounds_ordered ls us = true ->
  int_penalty xs ls us < 2 ^ 53 ->
  _puv_penalty h x (Double.of_Z <$> ls) (Double.of_Z <$> us) (length xs)
  = Done (Double.of_Z (int_penalty xs ls us))
  /\ Double.is_finite (Double.of_Z (int_penalty xs ls us)) = true
  /\ Double.ival (Double.of_Z (int_penalty xs ls us)) = int_penalty xs ls us * 2 ^ 1074.
Proof.
  intros Hx Hlen Sx Sl Su Hord Hp.
  pose proof (int_penalty_nonneg xs ls us) as Hp0.
  destruct (DoubleFacts.of_Z_exact (int_penalty xs ls us) ltac:(lia)) as (_ & F & I).
  split; [|done].
  rewrite <- (length_fmap Double.of_Z xs) in Hx |- *.
  destruct (penalty_loop_correct h x (Double.of_Z <$> xs) (Double.of_Z <$> ls)
              (Double.of_Z <$> us)) as (Hrun & _); try done.
  - rewrite !length_fmap. done.
  - rewrite bounds_ordered_of_Z; done.
  - apply doubles_of_Z; done.
  - apply doubles_of_Z; done.
  - apply doubles_of_Z; done.
  - rewrite Hrun, penalty_sum_of_Z; done.
Qed.

Lemma X8_witness :
  _puv_penalty (Scenario.heap_of (Double.of_Z 3) (Double.of_Z (-4)) Double.zero)
    Scenario.x (Double.of_Z <$> [-1; -1]) (Double.of_Z <$> [1; 1]) (length [3; -4])
  = Done (Double.of_Z (int_penalty [3; -4] [-1; -1] [1; 1]))
  /\ Double.is_finite (Double.of_Z (int_penalty [3; -4] [-1; -1] [1; 1])) = true
  /\ Double.ival (Double.of_Z (int_penalty [3; -4] [-1; -1] [1; 1]))
     = int_penalty [3; -4] [-1; -1] [1; 1] * 2 ^ 1074.
Proof.
  apply (X8_penalty_exact_on_integers
           (Scenario.heap_of (Double.of_Z 3) (Double.of_Z (-4)) Double.zero)
           Scenario.x [3; -4] [-1; -1] [1; 1]);
    reflexivity.
Defined.

Lemma scaled_of_Z v k p :
  Z.abs v < 2 ^ 53 -> Z.abs k < 2 ^ 53 -> Z.abs p < 2 ^ 53 -> Z.abs (k * p) < 2 ^ 53 ->
  (Double.of_Z v + Double.of_Z k * Double.of_Z p)%D = Double.of_Z (v + k * p).
Proof.
  intros Hv Hk Hp Hkp.
  destruct (DoubleFacts.mul_of_Z_any k p Hk Hp) as [->|[Hz ->]].
  - apply DoubleFacts.add_of_Z_any; done.
  - rewrite Hz, Z.add_0_r. apply DoubleFacts.add_of_Z_zero. done.
Qed.

Lemma smalls_lookup l i n : smalls l = true -> l !! i = Some n -> small n = true.
Proof.
  revert i. induction l as [|m l IH]; intros i H Hi; [done|].
  simpl in H. apply andb_prop in H as [Hm Hl].
  destruct i as [|i]; simpl in Hi; [injection Hi as <-; done|].
  eapply IH; done.
Qed.

(** X9: on integer data the evaluation is correctly rounded.  With integer
    coordinates, bounds, factor [k] and inner objective values [v], all below
    [2 ^ 53] in magnitude as are the penalty and [k * penalty], every
    objective value returned is the double nearest to the integer
    [v + k * penalty]: the integer itself when it is below [2 ^ 53]. *)
Theorem X9_evaluation_exact_on_integers inner k self x y h xs ls us h1 vs :
  penalize_uninteresting_values (Some inner) (Double.of_Z k) = Done self ->
  smallest_values_of_interest inner = Double.of_Z <$> ls ->
  largest_values_of_interest inner = Double.of_Z <$> us ->
  length ls = length xs ->
  int_bounds_ordered ls us = true ->
  smalls xs = true -> smalls ls = true -> smalls us = true ->
  small k = true -> smalls vs = true ->
  read_vector h x (number_of_variables inner) = Some (Double.of_Z <$> xs) ->
  coco_evaluate_function inner x y h = Done h1 ->
  read_vector h1 y (number_of_objectives inner) = Some (Double.of_Z <$> vs) ->
  int_penalty xs ls us < 2 ^ 53 ->
  Z.abs (k * int_penalty xs ls us) < 2 ^ 53 ->
  exists h2,
    coco_evaluate_function self x y h = Done h2 /\
    forall j v, vs !! j = Some v ->
      h2 !! (y + j)%nat = Some (Double.of_Z (v + k * int_penalty xs ls us)).
Proof.
  intros Hself Hl Hu Hlen Hord Sx Sl Su Sk Sv Hx Hinner Hy Hp Hkp.
  pose proof (read_vector_length _ _ _ _ Hx) as Hn. rewrite length_fmap in Hn.
  assert (Hwf : well_formed inner = true).
  { unfold well_formed. rewrite Hl, Hu, length_fmap, Hlen, Hn, Nat.eqb_refl.
    rewrite bounds_ordered_of_Z, Hord, !doubles_of_Z by done. done. }
  destruct (evaluate_returns inner _ self x y h _ h1 _ Hself Hwf Hx
              (doubles_of_Z xs Sx) Hinner Hy) as (_ & _ & h2 & Hrun & Hread & _).
  rewrite Hl, Hu, penalty_sum_of_Z in Hread by done.
  exists h2. split; [done|]. intros j v Hj.
  eapply read_vector_lookup; [exact Hread|].
  rewrite !list_lookup_fmap, Hj. simpl. f_equal.
  pose proof (int_penalty_nonneg xs ls us).
  apply scaled_of_Z; try done.
  - apply small_abs. eapply smalls_lookup; done.
  - apply small_abs. done.
  - lia.
Qed.

Lemma X9_witness :
  exists h2,
    coco_evaluate_function (Scenario.transformed (Double.of_Z 2) (Double.of_Z 5))
      Scenario.x Scenario.y
      (Scenario.heap_of (Double.of_Z 3) (Double.of_Z 0) Double.zero) = Done h2 /\
    forall j v, [5] !! j = Some v ->
      h2 !! (Scenario.y + j)%nat
      = Some (Double.of_Z (v + 2 * int_penalty [3; 0] [-1; -1] [1; 1])).
Proof.
  apply (X9_evaluation_exact_on_integers
           (Scenario.constant_problem (Double.of_Z 5)) 2
           (Scenario.transformed (Double.of_Z 2) (Double.of_Z 5))
           Scenario.x Scenario.y
           (Scenario.heap_of (Double.of_Z 3) (Double.of_Z 0) Double.zero)
           [3; 0] [-1; -1] [1; 1]
           (Scenario.heap_of (Double.of_Z 3) (Double.of_Z 0) (Double.of_Z 5))
           [5]);
    reflexivity.
Defined.

(** X10: with a positive finite factor the transformation never lowers an
    objective value: whatever [x] is, a finite value [v] of the inner problem
    comes back as a value [v'] with [v <= v'] (possibly [+infinity], never a
    NaN). *)
Theorem X10_never_below_inner inner k self x y h xs h1 ys j v :
  penalize_uninteresting_values (Some inner) k = Done self ->
  well_formed inner = true ->
  read_vector h x (number_of_variables inner) = Some xs ->
  doubles xs = true ->
  coco_evaluate_function inner x y h = Done h1 ->
  read_vector h1 y (number_of_objectives inner) = Some ys ->
  Double.is_double k -> Double.is_pos k = true -> Double.is_finite k = true ->
  ys !! j = Some v -> Double.is_double v -> Double.is_finite v = true ->
  exists h2 v',
    coco_evaluate_function self x y h = Done h2
    /\ h2 !! (y + j)%nat = Some v'
    /\ Double.le v v' = true.
Proof.
  intros Hself Hwf Hx Vx Hinner Hy Vk Pk Fk Hj Vv Fv.
  destruct (evaluate_returns inner k self x y h xs h1 ys Hself Hwf Hx Vx Hinner Hy)
    as (Np & Vp & h2 & Hrun & Hread & _).
  destruct (DoubleFacts.mul_pos_nonneg k _ Vk Vp Pk Fk Np) as [Nkp Vkp].
  eexists h2, _. split; [done|]. split.
  - eapply read_vector_lookup; [exact Hread|]. rewrite list_lookup_fmap, Hj. done.
  - apply DoubleFacts.add_ge_any; done.
Qed.

Lemma X10_witness :
  exists h2 v',
    coco_evaluate_function (Scenario.transformed (Double.of_Z 2) (Double.of_Z (-5)))
      Scenario.x Scenario.y
      (Scenario.heap_of (Double.of_Z 3) (Double.of_Z 0) Double.zero) = Done h2
    /\ h2 !! (Scenario.y + 0)%nat = Some v'
    /\ Double.le (Double.of_Z (-5)) v' = true.
Proof.
  apply (X10_never_below_inner
           (Scenario.constant_problem (Double.of_Z (-5))) (Double.of_Z 2)
           (Scenario.transformed (Double.of_Z 2) (Double.of_Z (-5)))
           Scenario.x Scenario.y
           (Scenario.heap_of (Double.of_Z 3) (Double.of_Z 0) Double.zero)
           [Double.of_Z 3; Double.of_Z 0]
           (Scenario.heap_of (Double.of_Z 3) (Double.of_Z 0) (Double.of_Z (-5)))
           [Double.of_Z (-5)] 0%nat (Double.of_Z (-5)));
    reflexivity.
Defined.

(** ** Calls that return *)

Lemma read_vector_is_Some h n : forall p,
  (forall a, within p n a -> is_Some (h !! a)) ->
  exists vs, read_vector h p n = Some vs.
Proof.
  induction n as [|n IH]; intros p Hall; [exists []; done|].
  destruct (Hall p) as [v Hv]; [unfold within; lia|].
  destruct (IH (S p)) as [vs Hvs].
  { intros a Ha. apply Hall. unfold within in *. lia. }
  exists (v :: vs). cbn [read_vector]. unfold ptr in *. rewrite Hv, Hvs. done.
Qed.

Lemma penalty_loop_done h x lbs ubs n : forall i acc p,
  for_loop_from i n (_puv_penalty_body h x lbs ubs) acc = Done p ->
  forall j, (i <= j < i + n)%nat ->
    is_Some (h !! (x + j)%nat)
    /\ exists lb ub, lbs !! j = Some lb /\ ubs !! j = Some ub /\ Double.lt lb ub = true.
Proof.
  induction n as [|n IH]; intros i acc p Hrun j Hj; [lia|].
  cbn [for_loop_from] in Hrun.
  destruct (_puv_penalty_body h x lbs ubs i acc) as [acc'| |] eqn:Hbody;
    cbn [mbind outcome_bind] in Hrun; try done.
  unfold _puv_penalty_body, load in Hbody. unfold ptr in *.
  destruct (h !! (x + i)%nat) as [xi|] eqn:Hxi; cbn [mbind outcome_bind defined] in Hbody;
    [|done].
  destruct (ubs !! i) as [ub|] eqn:Hub; cbn [mbind outcome_bind defined] in Hbody; [|done].
  destruct (lbs !! i) as [lb|] eqn:Hlb; cbn [mbind outcome_bind defined] in Hbody; [|done].
  destruct (Double.lt lb ub) eqn:Hlt; cbn [mbind outcome_bind assert] in Hbody; [|done].
  destruct (decide (j = i)) as [->|Hne].
  - split; [eauto|]. exists lb, ub. done.
  - apply (IH _ _ _ Hrun). lia.
Qed.

Lemma bounds_ordered_pointwise lbs : forall ubs,
  length lbs = length ubs ->
  (forall j lb ub, lbs !! j = Some lb -> ubs !! j = Some ub -> Double.lt lb ub = true) ->
  bounds_ordered lbs ubs = true.
Proof.
  induction lbs as [|lb lbs IH]; intros [|ub ubs] Hlen Hall; try done.
  simpl. rewrite (Hall 0%nat lb ub) by done. simpl.
  apply IH; [simpl in Hlen; lia|].
  intros j lb' ub' H1 H2. apply (Hall (S j)); done.
Qed.

Lemma add_loop_done y k penalty n : forall i h h',
  for_loop_from i n (_puv_add_body y k penalty) h = Done h' ->
  forall j, (i <= j < i + n)%nat -> is_Some (h !! (y + j)%nat).
Proof.
  induction n as [|n IH]; intros i h h' Hrun j Hj; [lia|].
  simpl in Hrun.
  destruct (h !! (y + i)%nat) as [v|] eqn:Hv.
  - rewrite (add_body_run y k penalty i h v Hv) in Hrun. cbn [mbind outcome_bind] in Hrun.
    destruct (decide (j = i)) as [->|Hne]; [eauto|].
    pose proof (IH _ _ _ Hrun j ltac:(lia)) as Hs.
    rewrite lookup_insert_ne in Hs by lia. done.
  - assert (Hf : _puv_add_body y k penalty i h = Fault)
      by (unfold _puv_add_body, store, load; rewrite Hv; done).
    rewrite Hf in Hrun. done.
Qed.

(** X11: a call that returns has passed every check.  If the evaluation of
    the transformed problem returns, then the bounds are ordered on every
    coordinate, the [number_of_variables] cells of [x] were allocated, the
    inner evaluation has returned, and the [number_of_objectives] cells of [y]
    were allocated after it. *)
Theorem X11_returns_only_if_checks_pass inner k self x y h h2 :
  penalize_uninteresting_values (Some inner) k = Done self ->
  length (smallest_values_of_interest inner) = number_of_variables inner ->
  length (largest_values_of_interest inner) = number_of_variables inner ->
  coco_evaluate_function self x y h = Done h2 ->
  bounds_ordered (smallest_values_of_interest inner)
    (largest_values_of_interest inner) = true
  /\ (exists xs, read_vector h x (number_of_variables inner) = Some xs)
  /\ exists h1 ys,
       coco_evaluate_function inner x y h = Done h1
       /\ read_vector h1 y (number_of_objectives inner) = Some ys.
Proof.
  intros Hself Hl Hu Hrun.
  rewrite (evaluate_transformed inner k self x y h Hself) in Hrun.
  unfold _puv_penalty, for_loop in Hrun.
  destruct (for_loop_from 0 _ (_puv_penalty_body _ _ _ _) _) as [p| |] eqn:Hp;
    simpl in Hrun; try done.
  destruct (coco_evaluate_function inner x y h) as [h1| |] eqn:Hinner;
    simpl in Hrun; try done.
  pose proof (penalty_loop_done _ _ _ _ _ _ _ _ Hp) as Hall.
  split; [|split].
  - apply bounds_ordered_pointwise; [lia|].
    intros j lb ub Hlb Hub.
    destruct (Hall j) as (_ & lb' & ub' & Hlb' & Hub' & Hlt).
    { apply lookup_lt_Some in Hlb. lia. }
    congruence.
  - apply read_vector_is_Some. intros a Ha. unfold within in Ha.
    destruct (Hall (a - x)%nat) as [Hs _]; [lia|].
    replace (x + (a - x))%nat with a in Hs by lia. done.
  - exists h1. destruct (read_vector_is_Some h1 (number_of_objectives inner) y) as [ys Hys].
    + intros a Ha. unfold within in Ha.
      pose proof (add_loop_done _ _ _ _ _ _ _ Hrun (a - y)%nat ltac:(lia)) as Hs.
      replace (y + (a - y))%nat with a in Hs by lia. done.
    + exists ys. done.
Qed.

Lemma X11_witness :
  bounds_ordered
    (smallest_values_of_interest (Scenario.constant_problem (Double.of_Z 5)))
    (largest_values_of_interest (Scenario.constant_problem (Double.of_Z 5))) = true
  /\ (exists xs,
        read_vector (Scenario.heap_of (Double.of_Z 2) (Double.of_Z 0) Double.zero)
          Scenario.x (number_of_variables (Scenario.constant_problem (Double.of_Z 5)))
        = Some xs)
  /\ exists h1 ys,
       coco_evaluate_function (Scenario.constant_problem (Double.of_Z 5))
         Scenario.x Scenario.y
         (Scenario.heap_of (Double.of_Z 2) (Double.of_Z 0) Double.zero) = Done h1
       /\ read_vector h1 Scenario.y
            (number_of_objectives (Scenario.constant_problem (Double.of_Z 5)))
          = Some ys.
Proof.
  apply (X11_returns_only_if_checks_pass
           (Scenario.constant_problem (Double.of_Z 5)) (Double.of_Z 2)
           (Scenario.transformed (Double.of_Z 2) (Double.of_Z 5))
           Scenario.x Scenario.y
           (Scenario.heap_of (Double.of_Z 2) (Double.of_Z 0) Double.zero)
           (Scenario.heap_of (Double.of_Z 2) (Double.of_Z 0) (Double.of_Z 7))).
  - reflexivity.
  - reflexivity.
  - reflexivity.
  - vm_compute. reflexivity.
Defined.
